(** * Discordeno channel handlers: permission overwrites and the
      name/topic edit queue

    A shallow embedding of [src/handlers/channel.ts] (and of the role
    permission aggregation of the guild handlers), with the properties the
    design document states about them.

    Conventions.
    - A JavaScript [BigInt] is a [Z]; [&] and [|] on BigInts are [Z.land]
      and [Z.lor] (both are two's complement on unbounded integers).
    - A JavaScript [number] that holds an integer is a [Z] as well; the
      bitwise operators on numbers first reduce their operands to signed
      32-bit integers, which is written out in [ToInt32].
    - Module-level mutable state ([editChannelNameTopicQueue],
      [editChannelProcessing]) is threaded explicitly through a [State]
      record, together with the log of requests handed to the transport.
    - A [Map] is an association list in insertion order, the order
      [Map.prototype.forEach] visits it in.
    - [editChannel] is an async function: a call runs up to its first
      [await], the capability lookup, and its body runs later, in one piece
      (nothing else is awaited before the request is handed to the
      transport). The calls [processEditChannelQueue] makes are therefore
      kept as suspended calls in the state, time is a parameter of every
      step ([Date.now()]), and the timers armed with [setTimeout] are kept
      in the state as well. *)

From Stdlib Require Import ZArith List String Bool Lia DecimalString.
From Stdlib Require Import DecimalPos DecimalZ.
Import ListNotations.
Open Scope string_scope.
Open Scope list_scope.
Open Scope Z_scope.

(** ** JavaScript values *)

(** Truthiness of a BigInt or of an integer number: everything but zero. *)
Definition truthy_int (z : Z) : bool := negb (z =? 0).

(** Truthiness of an optional string field: [undefined] and the empty
    string are falsy. *)
Definition truthy_string (s : option string) : bool :=
  match s with
  | None => false
  | Some s => negb (s =? "")%string
  end.

(** JavaScript [a || b] on values that are objects or [undefined]. *)
Definition or_else {A : Type} (a b : option A) : option A :=
  match a with
  | Some _ => a
  | None => b
  end.

(** The value of a permission that is one bit: bit [k] of the mask. *)
Definition permission_bit (k : N) : Z := Z.shiftl 1 (Z.of_N k).

(** ** Overwrites as the API returns them *)

Module RawOverwrite.
(** [allow] and [deny] hold the integer [BigInt(...)] reads from the
    field. *)
Record t : Type := mk { id : string; type : Z; allow : Z; deny : Z }.
End RawOverwrite.

(** ** channelOverwriteHasPermission *)

(** [overwrites.find((perm) => perm.id === id) ||
     overwrites.find((perm) => perm.id === guildID)] *)
Definition find_overwrite (guildID id : string)
    (overwrites : list RawOverwrite.t) : option RawOverwrite.t :=
  or_else
    (find (fun perm => (RawOverwrite.id perm =? id)%string) overwrites)
    (find (fun perm => (RawOverwrite.id perm =? guildID)%string) overwrites).

(** The callback of [permissions.every]. *)
Definition overwrite_grants (overwrite : option RawOverwrite.t) (perm : Z)
    : bool :=
  match overwrite with
  | Some o =>
      if truthy_int (Z.land (RawOverwrite.deny o) perm) then false
      else if truthy_int (Z.land (RawOverwrite.allow o) perm) then true
      else false
  | None => false
  end.

Definition channelOverwriteHasPermission (guildID id : string)
    (overwrites : list RawOverwrite.t) (permissions : list Z) : bool :=
  let overwrite := find_overwrite guildID id overwrites in
  forallb (overwrite_grants overwrite) permissions.

(** ** The matched entry, as the design document words it *)

(** [o] is the first entry of [overwrites] whose id is [p]. *)
Definition first_with_id (p : string) (overwrites : list RawOverwrite.t)
    (o : RawOverwrite.t) : Prop :=
  exists before after,
    overwrites = before ++ o :: after /\
    RawOverwrite.id o = p /\
    forall x, In x before -> RawOverwrite.id x <> p.

(** The entry for the principal, else the entry for the root id. *)
Definition matched_entry (guildID id : string)
    (overwrites : list RawOverwrite.t) (o : RawOverwrite.t) : Prop :=
  first_with_id id overwrites o \/
  ((forall x, In x overwrites -> RawOverwrite.id x <> id) /\
   first_with_id guildID overwrites o).

(** ** Edit options, payloads and the queue's records *)

Inductive Errors : Type :=
| MISSING_MANAGE_CHANNELS
| MISSING_MANAGE_ROLES.

(** An overwrite as the caller of [editChannel] writes it: the masks are
    arrays of permission names. *)
Module Overwrite.
Record t : Type :=
  mk { id : string; type : Z; allow : list string; deny : list string }.
End Overwrite.

(** The fields of [ChannelEditOptions] that [editChannel] reads; the fields
    it only copies into the payload with [...options] travel inside the
    options value. *)
Module ChannelEditOptions.
Record t : Type := mk {
  name : option string;
  topic : option string;
  slowmode : option Z;
  parentID : option string;
  userLimit : option Z;
  overwrites : option (list Overwrite.t)
}.
End ChannelEditOptions.

(** An element of [permission_overwrites] in the payload: the masks are the
    decimal text of a BigInt. *)
Module PermissionOverwrite.
Record t : Type :=
  mk { id : string; type : Z; allow : string; deny : string }.
End PermissionOverwrite.

(** The second argument of [RequestManager.patch]. *)
Module Payload.
Record t : Type := mk {
  options : ChannelEditOptions.t;
  rate_limit_per_user : option Z;
  parent_id : option string;
  user_limit : option Z;
  permission_overwrites : option (list PermissionOverwrite.t);
  reason : option string
}.
End Payload.

(** A request handed to the transport: [RequestManager.patch] on
    [endpoints.GUILD_CHANNEL(channelID)] with a payload. *)
Record PatchRequest : Type :=
  mkPatch { patch_channelID : string; patch_payload : Payload.t }.

(** An element of [EditChannelRequest.items]. *)
Record QueuedEdit : Type :=
  mkQueued { queued_channelID : string; queued_options : ChannelEditOptions.t }.

Module EditChannelRequest.
Record t : Type := mk {
  amount : Z;
  timestamp : Z;
  channelID : string;
  items : list QueuedEdit
}.

(** Assignments to one field of a request. *)
Definition set_amount (a : Z) (r : t) : t :=
  mk a (timestamp r) (channelID r) (items r).
Definition set_timestamp (ts : Z) (r : t) : t :=
  mk (amount r) ts (channelID r) (items r).
Definition set_items (l : list QueuedEdit) (r : t) : t :=
  mk (amount r) (timestamp r) (channelID r) l.
End EditChannelRequest.

(** ** Map, in insertion order *)

Section MapOps.
Context {V : Type}.

Fixpoint Map_get (k : string) (m : list (string * V)) : option V :=
  match m with
  | [] => None
  | (k', v) :: rest => if (k' =? k)%string then Some v else Map_get k rest
  end.

(** [set] keeps the position of a key that is present and appends a new
    key. *)
Fixpoint Map_set (k : string) (v : V) (m : list (string * V))
    : list (string * V) :=
  match m with
  | [] => [(k, v)]
  | (k', v') :: rest =>
      if (k' =? k)%string then (k', v) :: rest
      else (k', v') :: Map_set k v rest
  end.

Fixpoint Map_delete (k : string) (m : list (string * V))
    : list (string * V) :=
  match m with
  | [] => []
  | (k', v') :: rest =>
      if (k' =? k)%string then Map_delete k rest
      else (k', v') :: Map_delete k rest
  end.

Definition Map_keys (m : list (string * V)) : list string := map fst m.
End MapOps.

(** ** Module state *)

Record State : Type := mkState {
  (** [editChannelNameTopicQueue], a [Map<string, EditChannelRequest>] *)
  editChannelNameTopicQueue : list (string * EditChannelRequest.t);
  (** [let editChannelProcessing = false] *)
  editChannelProcessing : bool;
  (** The requests [editChannel] has handed to [RequestManager.patch], oldest
      first. *)
  patched : list PatchRequest;
  (** The calls [editChannel(details.channelID, details.options)] made by
      [processEditChannelQueue]; each is suspended at its first [await] and
      runs its body later, in the order of the calls. *)
  resubmitted : list QueuedEdit;
  (** The times at which a [setTimeout] of [processEditChannelQueue] was
      armed to fire. *)
  timeouts : list Z
}.

Definition initial_state : State := mkState [] false [] [] [].

Definition with_queue (q : list (string * EditChannelRequest.t)) (s : State)
    : State :=
  mkState q (editChannelProcessing s) (patched s) (resubmitted s) (timeouts s).

Definition with_processing (b : bool) (s : State) : State :=
  mkState (editChannelNameTopicQueue s) b (patched s) (resubmitted s)
    (timeouts s).

Definition with_patched (p : list PatchRequest) (s : State) : State :=
  mkState (editChannelNameTopicQueue s) (editChannelProcessing s) p
    (resubmitted s) (timeouts s).

Definition with_resubmitted (r : list QueuedEdit) (s : State) : State :=
  mkState (editChannelNameTopicQueue s) (editChannelProcessing s) (patched s)
    r (timeouts s).

Definition with_timeouts (t : list Z) (s : State) : State :=
  mkState (editChannelNameTopicQueue s) (editChannelProcessing s) (patched s)
    (resubmitted s) t.

(** What a call of [editChannel] settles to. *)
Inductive Outcome : Type :=
| Thrown (e : Errors)          (* the promise rejects with [new Error(e)] *)
| Forwarded (r : PatchRequest) (* the promise of [RequestManager.patch] *)
| Deferred.                    (* the promise resolves to [undefined] *)

(** Ten minutes, in milliseconds. *)
Definition window : Z := 600000.

(** ** Bitwise operators *)

(** [BigInt.prototype.toString()]: the decimal text. *)
Definition BigInt_toString (z : Z) : string :=
  NilZero.string_of_int (Z.to_int z).

(** The conversion the bitwise operators apply to a number: the integer
    modulo 2^32, read as a signed 32-bit integer. *)
Definition ToInt32 (z : Z) : Z := (z + 2 ^ 31) mod 2 ^ 32 - 2 ^ 31.

(** [a | b] on numbers. *)
Definition number_or (a b : Z) : Z := Z.lor (ToInt32 a) (ToInt32 b).

(** [a | b] on BigInts. *)
Definition BigInt_or (a b : Z) : Z := Z.lor a b.

Section Handlers.

(** The enum [Permissions] of [types/permission.ts], as the map from a
    permission's name to its value. *)
Variable Permissions : string -> Z.

(** [botHasChannelPermissions(channelID, permissions)] of
    [utils/permissions.ts], by the answer its promise resolves to. *)
Variable botHasChannelPermissions : string -> list Z -> bool.

(** The capability lookup of [editChannel] answers yes for the channel. *)
Definition may_manage (channelID : string) : Prop :=
  botHasChannelPermissions channelID [Permissions "MANAGE_CHANNELS"] = true.

(** *** Aggregation of named permissions *)

(** [perms.reduce((bits, perm) => bits |= BigInt(Permissions[perm]),
    BigInt(0))] *)
Definition reduce_BigInt (perms : list string) : Z :=
  fold_left (fun bits perm => BigInt_or bits (Permissions perm)) perms 0.

(** [perms.reduce((subtotal, perm) => { subtotal |= Permissions[perm];
    return subtotal; }, 0)] *)
Definition reduce_number (perms : list string) : Z :=
  fold_left (fun subtotal perm => number_or subtotal (Permissions perm))
    perms 0.

(** The [permissions] field of the body [createGuildRole] posts:
    [options.permissions?.reduce(...)]. *)
Definition createGuildRole_permissions (permissions : option (list string))
    : option Z :=
  option_map reduce_number permissions.

(** The callback of [options.overwrites?.map] in [editChannel]. *)
Definition payload_overwrite (overwrite : Overwrite.t)
    : PermissionOverwrite.t :=
  PermissionOverwrite.mk
    (Overwrite.id overwrite)
    (Overwrite.type overwrite)
    (BigInt_toString (reduce_BigInt (Overwrite.allow overwrite)))
    (BigInt_toString (reduce_BigInt (Overwrite.deny overwrite))).

(** [{ ...payload, reason }] *)
Definition editChannel_payload (options : ChannelEditOptions.t)
    (reason : option string) : Payload.t :=
  Payload.mk options
    (ChannelEditOptions.slowmode options)
    (ChannelEditOptions.parentID options)
    (ChannelEditOptions.userLimit options)
    (option_map (map payload_overwrite)
       (ChannelEditOptions.overwrites options))
    reason.

(** *** The queue *)

(** [options.name || options.topic], as a condition. *)
Definition touches_name_or_topic (options : ChannelEditOptions.t) : bool :=
  truthy_string (ChannelEditOptions.name options)
  || truthy_string (ChannelEditOptions.topic options).

(** The callback of [editChannelNameTopicQueue.forEach], at the entry under
    [key]. An entry deleted earlier in the same pass is not visited. The
    two calls of [editChannel] are recorded in [resubmitted]. *)
Definition drain_request (now : Z) (s : State) (key : string) : State :=
  let queue := editChannelNameTopicQueue s in
  match Map_get key queue with
  | None => s
  | Some request =>
      if now >? EditChannelRequest.timestamp request then s
      else
        match EditChannelRequest.items request with
        | [] =>
            with_queue
              (Map_delete (EditChannelRequest.channelID request) queue) s
        | [details] =>
            let request' :=
              EditChannelRequest.set_items []
                (EditChannelRequest.set_amount 0 request) in
            with_resubmitted (resubmitted s ++ [details])
              (with_queue (Map_set key request' queue) s)
        | details :: secondDetails :: rest =>
            let request' :=
              EditChannelRequest.set_items rest
                (EditChannelRequest.set_amount 0 request) in
            with_resubmitted (resubmitted s ++ [details; secondDetails])
              (with_queue (Map_set key request' queue) s)
        end
  end.

Definition processEditChannelQueue (now : Z) (s : State) : State :=
  if negb (editChannelProcessing s) then s
  else
    let s' :=
      fold_left (drain_request now)
        (Map_keys (editChannelNameTopicQueue s)) s in
    match editChannelNameTopicQueue s' with
    | _ :: _ => with_timeouts (timeouts s' ++ [now + window]) s'
    | [] => with_processing false s'
    end.

(** [RequestManager.patch(endpoints.GUILD_CHANNEL(channelID), ...)] *)
Definition forward (channelID : string) (options : ChannelEditOptions.t)
    (reason : option string) (s : State) : Outcome * State :=
  let r := mkPatch channelID (editChannel_payload options reason) in
  (Forwarded r, with_patched (patched s ++ [r]) s).

(** The body of [editChannel] from its [await] on, run at time [now]. The
    part before the [await] only starts the capability lookup. *)
Definition editChannel (now : Z) (channelID : string)
    (options : ChannelEditOptions.t) (reason : option string) (s : State)
    : Outcome * State :=
  let hasManageChannelsPerm :=
    botHasChannelPermissions channelID [Permissions "MANAGE_CHANNELS"] in
  if negb hasManageChannelsPerm then (Thrown MISSING_MANAGE_CHANNELS, s)
  else if touches_name_or_topic options then
    let queue := editChannelNameTopicQueue s in
    match Map_get channelID queue with
    | None =>
        forward channelID options reason
          (with_queue
             (Map_set channelID
                (EditChannelRequest.mk 1 (now + window) channelID [])
                queue)
             s)
    | Some request =>
        if EditChannelRequest.amount request =? 1 then
          let request' :=
            EditChannelRequest.set_timestamp (now + window)
              (EditChannelRequest.set_amount 2 request) in
          forward channelID options reason
            (with_queue (Map_set channelID request' queue) s)
        else
          let request' :=
            EditChannelRequest.set_items
              (EditChannelRequest.items request
                 ++ [mkQueued channelID options])
              request in
          let s1 := with_queue (Map_set channelID request' queue) s in
          if editChannelProcessing s1 then (Deferred, s1)
          else
            (Deferred, processEditChannelQueue now (with_processing true s1))
    end
  else forward channelID options reason s.

(** *** Event loop *)

(** The suspended calls of [resubmitted] run their bodies, oldest first, one
    per entry of [clock], at the time the entry gives. What they settle to
    is dropped, as [processEditChannelQueue] drops their promises. *)
Fixpoint resume (clock : list Z) (s : State) : State :=
  match clock with
  | [] => s
  | now :: clock' =>
      match resubmitted s with
      | [] => s
      | call :: rest =>
          resume clock'
            (snd (editChannel now (queued_channelID call)
                    (queued_options call) None
                    (with_resubmitted rest s)))
      end
  end.

(** A timer armed by [setTimeout(() => processEditChannelQueue(), 600000)]
    fires at time [now]. *)
Definition timeout_fires (now : Z) (s : State) : State :=
  match timeouts s with
  | [] => s
  | _ :: rest => processEditChannelQueue now (with_timeouts rest s)
  end.

(** A drain tick at [now], followed by the bodies of the calls it made. *)
Definition drain_tick (now : Z) (clock : list Z) (s : State) : State :=
  resume clock (processEditChannelQueue now s).

End Handlers.

(** The suspended calls run their bodies as [resume] runs them, each with
    the answers the capability lookup gives at its own time: a call looks
    the capability up afresh, and the calls a drain pass makes run up to
    ten minutes after the edits were queued. *)
Fixpoint resume_each (Permissions : string -> Z)
    (calls : list ((string -> list Z -> bool) * Z)) (s : State) : State :=
  match calls with
  | [] => s
  | (botHasChannelPermissions, now) :: calls' =>
      match resubmitted s with
      | [] => s
      | call :: rest =>
          resume_each Permissions calls'
            (snd (editChannel Permissions botHasChannelPermissions now
                    (queued_channelID call) (queued_options call) None
                    (with_resubmitted rest s)))
      end
  end.

(** The states the module can be in: it starts in [initial_state]; a call of
    [editChannel] runs its body, a suspended call made by the drain pass runs
    its body, or a timer fires. [botHasChannelPermissions] is given per step:
    every call awaits the lookup for itself, and what the lookup answers may
    change between two calls. *)
Inductive reachable (Permissions : string -> Z) : State -> Prop :=
| reachable_initial : reachable Permissions initial_state
| reachable_edit botHasChannelPermissions now channelID options reason s :
    reachable Permissions s ->
    reachable Permissions
      (snd (editChannel Permissions botHasChannelPermissions now channelID
              options reason s))
| reachable_resume botHasChannelPermissions now s :
    reachable Permissions s ->
    reachable Permissions
      (resume Permissions botHasChannelPermissions [now] s)
| reachable_timeout now s :
    reachable Permissions s -> reachable Permissions (timeout_fires now s).

(** ** Invariants of the queue *)

(** Every entry of the map is filed under its own [channelID], as
    [editChannel] files it. *)
Definition filed_under_own_id (q : list (string * EditChannelRequest.t))
    : Prop :=
  forall k r, In (k, r) q -> EditChannelRequest.channelID r = k.

(** A record at count 1 has nothing queued: edits are queued only past
    count 1, and a drain pass that takes from the queue resets the count
    to 0. *)
Definition burst_has_no_backlog (q : list (string * EditChannelRequest.t))
    : Prop :=
  forall k r,
    Map_get k q = Some r ->
    EditChannelRequest.amount r = 1 -> EditChannelRequest.items r = [].

(** The two invariants of the map. *)
Definition queue_invariant (s : State) : Prop :=
  filed_under_own_id (editChannelNameTopicQueue s) /\
  burst_has_no_backlog (editChannelNameTopicQueue s).

(** The drain cycle is running and the record of [c] is not at count 1. *)
Definition backlogged (c : string) (s : State) : Prop :=
  editChannelProcessing s = true /\
  exists r,
    Map_get c (editChannelNameTopicQueue s) = Some r /\
    EditChannelRequest.amount r <> 1.

(** [e] waits in the queue of the record of [c]. *)
Definition queued_for (c : string) (e : QueuedEdit) (s : State) : Prop :=
  exists r,
    Map_get c (editChannelNameTopicQueue s) = Some r /\
    In e (EditChannelRequest.items r).

(** The requests of the transport log that edit the name or the topic of
    [c]. *)
Definition throttled_edits_of (c : string) (log : list PatchRequest)
    : list PatchRequest :=
  filter
    (fun r =>
       (patch_channelID r =? c)%string
       && touches_name_or_topic (Payload.options (patch_payload r)))
    log.

(** What a drain pass can make of a record: leave it, delete it, or, when
    something was queued, put it at count 0. *)
Definition after_drain (before after : option EditChannelRequest.t) : Prop :=
  after = None \/
  after = before \/
  exists r r',
    before = Some r /\ EditChannelRequest.items r <> [] /\
    after = Some r' /\ EditChannelRequest.amount r' = 0.

(** The branch of [editChannel] that queues the edit: there is a record and
    its count is not 1. *)
Definition past_burst (record : option EditChannelRequest.t) : bool :=
  match record with
  | None => false
  | Some request => negb (EditChannelRequest.amount request =? 1)
  end.

(** While the drain cycle runs exactly one timer is armed and the map is not
    empty; while it does not run no timer is armed. *)
Definition one_timer (s : State) : Prop :=
  if editChannelProcessing s
  then List.length (timeouts s) = 1%nat /\ editChannelNameTopicQueue s <> []
  else timeouts s = [].

(** Every count is 0, 1 or 2. *)
Definition counts_in_range (q : list (string * EditChannelRequest.t))
    : Prop :=
  forall k r,
    In (k, r) q ->
    EditChannelRequest.amount r = 0 \/ EditChannelRequest.amount r = 1
    \/ EditChannelRequest.amount r = 2.

(** While the drain cycle does not run every record is at count 1 or 2 and
    has nothing queued. *)
Definition idle_records (s : State) : Prop :=
  editChannelProcessing s = false ->
  forall k r,
    In (k, r) (editChannelNameTopicQueue s) ->
    EditChannelRequest.items r = [] /\
    (EditChannelRequest.amount r = 1 \/ EditChannelRequest.amount r = 2).

(** Every queued edit sets the name or the topic of the channel whose record
    holds it, and every suspended call sets a name or a topic. *)
Definition queued_edits_filed (s : State) : Prop :=
  (forall k r e,
     In (k, r) (editChannelNameTopicQueue s) ->
     In e (EditChannelRequest.items r) ->
     queued_channelID e = k /\
     touches_name_or_topic (queued_options e) = true) /\
  (forall e,
     In e (resubmitted s) ->
     touches_name_or_topic (queued_options e) = true).

(** The three conditions on the records, kept together: they are preserved
    together. *)
Definition record_discipline (s : State) : Prop :=
  counts_in_range (editChannelNameTopicQueue s) /\
  idle_records s /\
  queued_edits_filed s.

(** ** Sample collaborators *)

(** Four flags of the platform's permission set, by name. *)
Definition sample_Permissions (perm : string) : Z :=
  if (perm =? "MANAGE_CHANNELS")%string then 16          (* 0x00000010 *)
  else if (perm =? "MANAGE_ROLES")%string then 268435456 (* 0x10000000 *)
  else if (perm =? "USE_SLASH_COMMANDS")%string then 2147483648
                                                         (* 0x80000000 *)
  else if (perm =? "REQUEST_TO_SPEAK")%string then 4294967296
                                                        (* 0x100000000 *)
  else 0.

(** A bot that holds every permission in every channel. *)
Definition always_permitted (channelID : string) (permissions : list Z)
    : bool := true.

(** An edit of the name alone. *)
Definition rename (name : string) : ChannelEditOptions.t :=
  ChannelEditOptions.mk (Some name) None None None None None.

(** A bot that holds no permission. *)
Definition never_permitted (channelID : string) (permissions : list Z)
    : bool := false.

Definition sample_edit :=
  editChannel sample_Permissions always_permitted.

Definition sample_resume := resume sample_Permissions always_permitted.

(** ** Sample runs *)

(** Renames of one channel, each awaited before the next, at the times
    given. *)
Fixpoint sample_renames (channelID : string) (edits : list (Z * string))
    (s : State) : State :=
  match edits with
  | [] => s
  | (now, name) :: edits' =>
      sample_renames channelID edits'
        (snd (sample_edit now channelID (rename name) None s))
  end.

(** Three renames of channel d start the drain cycle at 300; the call the
    first pass suspends runs its body at once. *)
Definition drain_started : State :=
  sample_resume [300]
    (sample_renames "d" [(100, "d1"); (200, "d2"); (300, "d3")]
       initial_state).

(** Then five renames of channel c: two go through, three are queued. *)
Definition backlog_of_three : State :=
  sample_renames "c"
    [(400, "n1"); (500, "n2"); (600, "n3"); (700, "n4"); (800, "n5")]
    drain_started.

(** One rename of channel c at 100; more than ten minutes later three
    renames of channel d, which start the drain cycle at 700200, and three
    renames of channel e. *)
Definition stale_and_fresh : State :=
  sample_renames "e" [(700300, "e1"); (700400, "e2"); (700500, "e3")]
    (sample_resume [700200]
       (sample_renames "d" [(700000, "d1"); (700100, "d2"); (700200, "d3")]
          (sample_renames "c" [(100, "c1")] initial_state))).

(** Two renames of channel A, then one rename of channel B. *)
Definition two_channels : State :=
  sample_renames "B" [(300, "b1")]
    (sample_renames "A" [(100, "a1"); (200, "a2")] initial_state).

(** Three renames of channel d, the third of which starts the drain cycle;
    the call the first pass makes for it runs after the capability has been
    withdrawn, and is refused. *)
Definition refused_resubmission : State :=
  resume sample_Permissions never_permitted [300]
    (sample_renames "d" [(100, "d1"); (200, "d2"); (300, "d3")]
       initial_state).

(** The integer a decimal text stands for. *)
Definition decimal_value (text : string) : option Z :=
  option_map Z.of_int (NilZero.int_of_string text).

(** ** The other handlers of the channel and guild modules *)

(** The members of [Errors], and the two messages of the template handlers,
    that the handlers below throw. *)
Inductive HandlerError : Type :=
| MISSING_SEND_MESSAGES
| MISSING_SEND_TTS_MESSAGE
| MISSING_EMBED_LINKS
| MESSAGE_MAX_LENGTH
| CHANNEL_NOT_FOUND
| CHANNEL_NOT_TEXT_BASED
| MISSING_MANAGE_MESSAGES
| DELETE_MESSAGES_MIN
| MISSING_VIEW_AUDIT_LOG
| MISSING_MANAGE_GUILD
| MISSING_BAN_MEMBERS
| TEMPLATE_NAME_LENGTH         (* "The name can only be in between 1-100
                                  characters." *)
| TEMPLATE_DESCRIPTION_LENGTH. (* "The description can only be in between
                                  0-120 characters." *)

(** What the promise of a handler settles to, up to the request it hands to
    the transport. *)
Inductive Settled (A : Type) : Type :=
| Rejects (e : HandlerError)
| Resolves (a : A).

Arguments Rejects {A} e.
Arguments Resolves {A} a.

(** A string whose length or characters matter, by its UTF-16 code units. *)
Definition JSString : Type := list Z.

Definition is_high_surrogate (u : Z) : bool := (55296 <=? u) && (u <=? 56319).

Definition is_low_surrogate (u : Z) : bool := (56320 <=? u) && (u <=? 57343).

(** [[...s].length]: the string iterator takes a high surrogate and the low
    surrogate that follows it as one element, any other code unit alone. *)
Fixpoint spread_length (s : JSString) : nat :=
  match s with
  | [] => 0
  | u :: rest =>
      match rest with
      | v :: rest' =>
          if is_high_surrogate u && is_low_surrogate v
          then S (spread_length rest')
          else S (spread_length rest)
      | [] => 1
      end
  end.

(** Truthiness of an optional array length or string: defined and not
    empty. *)
Definition truthy_length {A : Type} (l : option (list A)) : bool :=
  match l with
  | Some (_ :: _) => true
  | _ => false
  end.

(** Members of [ChannelTypes]. *)
Inductive ChannelTypes : Type :=
| GUILD_TEXT
| DM
| GUILD_VOICE
| GROUP_DM
| GUILD_CATEGORY
| GUILD_NEWS
| GUILD_STORE.

(** An overwrite of a cached channel, its masks as the cache holds them. *)
Module CachedOverwrite.
Record t : Type := mk { id : string; allow : string; deny : string }.
End CachedOverwrite.

(** The fields of a cached channel that the handlers read. *)
Module Channel.
Record t : Type := mk {
  type : ChannelTypes;
  parentID : option string;
  permission_overwrites : option (list CachedOverwrite.t)
}.
End Channel.

(** [content.mentions] *)
Module Mentions.
Record t : Type := mk {
  parse : option (list string);
  users : option (list string);
  roles : option (list string);
  repliedUser : option bool
}.

Definition set_parse (p : option (list string)) (m : t) : t :=
  mk p (users m) (roles m) (repliedUser m).
Definition set_users (u : option (list string)) (m : t) : t :=
  mk (parse m) u (roles m) (repliedUser m).
Definition set_roles (r : option (list string)) (m : t) : t :=
  mk (parse m) (users m) r (repliedUser m).
End Mentions.

(** The fields of [MessageContent] that [sendMessage] reads; [embed] is
    handed on as it is. *)
Module MessageContent.
Record t (Embed : Type) : Type := mk {
  content : option JSString;
  tts : bool;
  embed : option Embed;
  mentions : option Mentions.t;
  replyMessageID : option string
}.
Arguments mk {Embed}.
Arguments content {Embed}.
Arguments tts {Embed}.
Arguments embed {Embed}.
Arguments mentions {Embed}.
Arguments replyMessageID {Embed}.

Definition set_mentions {Embed : Type} (m : option Mentions.t) (c : t Embed)
    : t Embed :=
  mk (content c) (tts c) (embed c) m (replyMessageID c).
End MessageContent.

(** The body [sendMessage] posts: [...content], [allowed_mentions] (the
    mentions with [replied_user]) and [message_reference.message_id]. *)
Module MessagePayload.
Record t (Embed : Type) : Type := mk {
  content : MessageContent.t Embed;
  allowed_mentions : option (Mentions.t * bool);
  message_id : option string
}.
Arguments mk {Embed}.
Arguments content {Embed}.
Arguments allowed_mentions {Embed}.
Arguments message_id {Embed}.
End MessagePayload.

(** The body [deleteMessages] posts to the bulk-delete endpoint of a
    channel. *)
Record BulkDelete : Type := mkBulkDelete {
  bulk_channelID : string;
  bulk_messages : list string;
  bulk_reason : option string
}.

(** The query [getAuditLogs] sends: the options with [limit] replaced. *)
Module GetAuditLogsOptions.
Record t : Type := mk {
  user_id : option string;
  action_type : option Z;
  before : option string;
  limit : option Z
}.
End GetAuditLogsOptions.

Record AuditLogQuery : Type := mkAuditLogQuery {
  audit_guildID : string;
  audit_options : GetAuditLogsOptions.t;
  audit_limit : Z
}.

Module CreateGuildTemplate.
Record t : Type := mk { name : JSString; description : option JSString }.
End CreateGuildTemplate.

Module EditGuildTemplate.
Record t : Type :=
  mk { name : option JSString; description : option JSString }.
End EditGuildTemplate.

(** An element of the response of the bans endpoint: [res.user.id] and the
    rest. *)
Module BannedUser.
Record t : Type := mk { user_id : string; reason : option string }.
End BannedUser.

(** [array.includes(x)] on strings. *)
Definition includes (x : string) (l : list string) : bool :=
  existsb (fun y => (y =? x)%string) l.

(** [array.filter((p) => p !== x)] *)
Definition without (x : string) (l : list string) : list string :=
  filter (fun p => negb (p =? x)%string) l.

(** [emojiURL(id, animated = false)] *)
Definition emojiURL (id : string) (animated : option bool) : string :=
  let animated := match animated with Some b => b | None => false end in
  ("https://cdn.discordapp.com/emojis/" ++ id ++ "."
   ++ (if animated then "gif" else "png"))%string.

(** The block of [sendMessage] that trims one list of [content.mentions]:
    for [users], drop "users" from [parse] when ids are listed and keep the
    first 100 ids. *)
Definition trim_users (m : Mentions.t) : Mentions.t :=
  if truthy_length (Mentions.users m) then
    let m1 :=
      match Mentions.parse m with
      | Some parse =>
          if includes "users" parse
          then Mentions.set_parse (Some (without "users" parse)) m
          else m
      | None => m
      end in
    match Mentions.users m1 with
    | Some users =>
        if (100 <? List.length users)%nat
        then Mentions.set_users (Some (firstn 100 users)) m1
        else m1
    | None => m1
    end
  else m.

(** The same block for [roles]. *)
Definition trim_roles (m : Mentions.t) : Mentions.t :=
  if truthy_length (Mentions.roles m) then
    let m1 :=
      match Mentions.parse m with
      | Some parse =>
          if includes "roles" parse
          then Mentions.set_parse (Some (without "roles" parse)) m
          else m
      | None => m
      end in
    match Mentions.roles m1 with
    | Some roles =>
        if (100 <? List.length roles)%nat
        then Mentions.set_roles (Some (firstn 100 roles)) m1
        else m1
    | None => m1
    end
  else m.

(** [content.mentions.repliedUser !== false] *)
Definition replied_user (m : Mentions.t) : bool :=
  match Mentions.repliedUser m with
  | Some false => false
  | _ => true
  end.

(** The limit [getAuditLogs] sends:
    [options.limit && options.limit >= 1 && options.limit <= 100
     ? options.limit : 50], on integer limits. *)
Definition audit_log_limit (limit : option Z) : Z :=
  match limit with
  | Some l => if truthy_int l && (l >=? 1) && (l <=? 100) then l else 50
  | None => 50
  end.

(** The callback of [every] in [isChannelSynced], for the overwrites of the
    parent channel. *)
Definition overwrite_synced
    (parent_overwrites : option (list CachedOverwrite.t))
    (overwrite : CachedOverwrite.t) : bool :=
  let permission :=
    match parent_overwrites with
    | Some l =>
        find
          (fun ow =>
             (CachedOverwrite.id ow =? CachedOverwrite.id overwrite)%string)
          l
    | None => None
    end in
  match permission with
  | None => false
  | Some permission =>
      if negb (CachedOverwrite.allow overwrite
               =? CachedOverwrite.allow permission)%string
         || negb (CachedOverwrite.deny overwrite
                  =? CachedOverwrite.deny permission)%string
      then false
      else true
  end.

(** [new Collection(results.map((res) => [res.user.id, res]))]: the entries
    are set one after the other. *)
Definition bans_collection (results : list BannedUser.t)
    : list (string * BannedUser.t) :=
  fold_left (fun m res => Map_set (BannedUser.user_id res) res m) results [].

Section OtherHandlers.

Variable Permissions : string -> Z.

(** [botHasChannelPermissions] and [botHasPermission] of
    [utils/permissions.ts], by the answers their promises resolve to. *)
Variable botHasChannelPermissions : string -> list Z -> bool.
Variable botHasPermission : string -> list Z -> bool.

(** [cacheHandlers.get("channels", id)] *)
Variable cached_channel : string -> option Channel.t.

(** [sendMessage(channelID, content)]: what the call settles to, and
    [content.mentions] as the call leaves it (the handler assigns to the
    fields of the caller's object). *)
Definition sendMessage {Embed : Type} (channelID : string)
    (content : JSString + MessageContent.t Embed)
    : Settled (string * MessagePayload.t Embed) * option Mentions.t :=
  let content :=
    match content with
    | inl text => MessageContent.mk (Some text) false None None None
    | inr c => c
    end in
  let has perm := botHasChannelPermissions channelID [Permissions perm] in
  if negb (has "SEND_MESSAGES")
  then (Rejects MISSING_SEND_MESSAGES, MessageContent.mentions content)
  else if MessageContent.tts content && negb (has "SEND_TTS_MESSAGES")
  then (Rejects MISSING_SEND_TTS_MESSAGE, MessageContent.mentions content)
  else if (match MessageContent.embed content with
           | Some _ => true
           | None => false
           end) && negb (has "EMBED_LINKS")
  then (Rejects MISSING_EMBED_LINKS, MessageContent.mentions content)
  else if truthy_length (MessageContent.content content)
          && (2000 <? match MessageContent.content content with
                      | Some text => spread_length text
                      | None => 0
                      end)%nat
  then (Rejects MESSAGE_MAX_LENGTH, MessageContent.mentions content)
  else
    let mentions :=
      option_map (fun m => trim_roles (trim_users m))
        (MessageContent.mentions content) in
    let replying :=
      match mentions with
      | Some m =>
          match Mentions.repliedUser m with
          | Some true => true
          | _ => false
          end
      | None => false
      end in
    if replying && negb (has "READ_MESSAGE_HISTORY")
    then (Rejects MISSING_SEND_MESSAGES, mentions)
    else
      match cached_channel channelID with
      | None => (Rejects CHANNEL_NOT_FOUND, mentions)
      | Some channel =>
          match Channel.type channel with
          | DM | GUILD_NEWS | GUILD_TEXT =>
              (Resolves
                 (channelID,
                  MessagePayload.mk
                    (MessageContent.set_mentions mentions content)
                    (option_map (fun m => (m, replied_user m)) mentions)
                    (MessageContent.replyMessageID content)),
               mentions)
          | _ => (Rejects CHANNEL_NOT_TEXT_BASED, mentions)
          end
      end.

(** [deleteMessages(channelID, ids, reason)]: what the call settles to, the
    caller's array as [ids.splice(0, 100)] leaves it, and whether the
    warning was logged. *)
Definition deleteMessages (channelID : string) (ids : list string)
    (reason : option string) : Settled BulkDelete * list string * bool :=
  if negb (botHasChannelPermissions channelID [Permissions "MANAGE_MESSAGES"])
  then (Rejects MISSING_MANAGE_MESSAGES, ids, false)
  else if (List.length ids <? 2)%nat
  then (Rejects DELETE_MESSAGES_MIN, ids, false)
  else
    (Resolves (mkBulkDelete channelID (firstn 100 ids) reason),
     skipn 100 ids,
     (100 <? List.length ids)%nat).

(** [isChannelSynced(channelID)]; [None] is [undefined]. *)
Definition isChannelSynced (channelID : string) : option bool :=
  match cached_channel channelID with
  | None => Some false
  | Some channel =>
      match Channel.parentID channel with
      | None => Some false
      | Some parentID =>
          if negb (truthy_string (Some parentID)) then Some false
          else
            match cached_channel parentID with
            | None => Some false
            | Some parentChannel =>
                option_map
                  (forallb
                     (overwrite_synced
                        (Channel.permission_overwrites parentChannel)))
                  (Channel.permission_overwrites channel)
            end
      end
  end.

(** [getAuditLogs(guildID, options)] *)
Definition getAuditLogs (guildID : string) (options : GetAuditLogsOptions.t)
    : Settled AuditLogQuery :=
  if negb (botHasPermission guildID [Permissions "VIEW_AUDIT_LOG"])
  then Rejects MISSING_VIEW_AUDIT_LOG
  else
    Resolves
      (mkAuditLogQuery guildID options
         (audit_log_limit (GetAuditLogsOptions.limit options))).

(** [getBans(guildID)], for the response [results] of the transport. *)
Definition getBans (guildID : string) (results : list BannedUser.t)
    : Settled (list (string * BannedUser.t)) :=
  if negb (botHasPermission guildID [Permissions "BAN_MEMBERS"])
  then Rejects MISSING_BAN_MEMBERS
  else Resolves (bans_collection results).

(** [createGuildTemplate(guildID, data)], up to the request it posts. *)
Definition createGuildTemplate (guildID : string)
    (data : CreateGuildTemplate.t)
    : Settled (string * CreateGuildTemplate.t) :=
  if negb (botHasPermission guildID [Permissions "MANAGE_GUILD"])
  then Rejects MISSING_MANAGE_GUILD
  else
    let name_length := List.length (CreateGuildTemplate.name data) in
    if (name_length <? 1)%nat || (100 <? name_length)%nat
    then Rejects TEMPLATE_NAME_LENGTH
    else if truthy_length (CreateGuildTemplate.description data)
            && (120 <? match CreateGuildTemplate.description data with
                       | Some d => List.length d
                       | None => 0
                       end)%nat
    then Rejects TEMPLATE_DESCRIPTION_LENGTH
    else Resolves (guildID, data).

(** [editGuildTemplate(guildID, templateCode, data)], up to the request it
    patches. *)
Definition editGuildTemplate (guildID templateCode : string)
    (data : EditGuildTemplate.t)
    : Settled (string * string * EditGuildTemplate.t) :=
  if negb (botHasPermission guildID [Permissions "MANAGE_GUILD"])
  then Rejects MISSING_MANAGE_GUILD
  else
    let name_length :=
      match EditGuildTemplate.name data with
      | Some n => List.length n
      | None => 0%nat
      end in
    if truthy_length (EditGuildTemplate.name data)
       && ((name_length <? 1)%nat || (100 <? name_length)%nat)
    then Rejects TEMPLATE_NAME_LENGTH
    else if truthy_length (EditGuildTemplate.description data)
            && (120 <? match EditGuildTemplate.description data with
                       | Some d => List.length d
                       | None => 0
                       end)%nat
    then Rejects TEMPLATE_DESCRIPTION_LENGTH
    else Resolves (guildID, templateCode, data).

End OtherHandlers.

(** [m] is [m0] with both lists cut to their first 100 ids and with "users"
    and "roles" taken out of [parse] when ids of that kind are listed. *)
Definition mentions_trimmed (m0 m : Mentions.t) : Prop :=
  Mentions.users m = option_map (firstn 100) (Mentions.users m0) /\
  Mentions.roles m = option_map (firstn 100) (Mentions.roles m0) /\
  Mentions.repliedUser m = Mentions.repliedUser m0 /\
  match Mentions.parse m0, Mentions.parse m with
  | Some p0, Some p =>
      forall x,
        In x p <->
        In x p0 /\
        (x = "users" -> truthy_length (Mentions.users m0) = false) /\
        (x = "roles" -> truthy_length (Mentions.roles m0) = false)
  | None, None => True
  | _, _ => False
  end.

(** A cache with a text channel "c" under the category "p"; the category
    holds the overwrites of the channel and one more. *)
Definition sample_overwrites : list CachedOverwrite.t :=
  [CachedOverwrite.mk "role" "1024" "0"; CachedOverwrite.mk "member" "0" "2048"].

Definition sample_cache (channelID : string) : option Channel.t :=
  if (channelID =? "c")%string
  then Some (Channel.mk GUILD_TEXT (Some "p") (Some sample_overwrites))
  else if (channelID =? "p")%string
  then Some (Channel.mk GUILD_CATEGORY None
               (Some (sample_overwrites
                        ++ [CachedOverwrite.mk "guest" "0" "1024"])))
  else None.

(** ** Lemmas on bits *)

Lemma permission_bit_pow2 (k : N) : permission_bit k = 2 ^ Z.of_N k.
Proof.
  unfold permission_bit. rewrite Z.shiftl_1_l. reflexivity.
Qed.

Lemma land_permission_bit (m : Z) (k : N) :
  truthy_int (Z.land m (permission_bit k)) = Z.testbit m (Z.of_N k).
Proof.
  unfold truthy_int.
  assert (Hk : 0 <= Z.of_N k) by lia.
  rewrite permission_bit_pow2.
  destruct (Z.testbit m (Z.of_N k)) eqn:Hb.
  - apply negb_true_iff, Z.eqb_neq. intro H0.
    assert (Ht : Z.testbit (Z.land m (2 ^ Z.of_N k)) (Z.of_N k) = true).
    { rewrite Z.land_spec, Hb, Z.pow2_bits_true by lia. reflexivity. }
    rewrite H0, Z.bits_0 in Ht. discriminate.
  - apply negb_false_iff, Z.eqb_eq. apply Z.bits_inj'. intros n Hn.
    rewrite Z.land_spec, Z.bits_0, Z.pow2_bits_eqb by lia.
    destruct (Z.eqb_spec (Z.of_N k) n) as [E | E].
    + subst n. rewrite Hb. reflexivity.
    + apply andb_false_r.
Qed.

(** ** Lemmas on the lookup *)

Lemma find_first_with_id (p : string) (overwrites : list RawOverwrite.t)
    (o : RawOverwrite.t) :
  find (fun perm => (RawOverwrite.id perm =? p)%string) overwrites = Some o
  <-> first_with_id p overwrites o.
Proof.
  induction overwrites as [| x rest IH]; simpl.
  - split; [discriminate |].
    intros (before & after & E & _). destruct before; discriminate.
  - destruct (String.eqb_spec (RawOverwrite.id x) p) as [E | E].
    + split.
      * intros [= <-]. exists [], rest. simpl.
        split; [reflexivity | split; [exact E | intros y []]].
      * intros (before & after & El & Ho & Hb).
        destruct before as [| y before]; simpl in El.
        -- injection El as -> _. reflexivity.
        -- injection El as <- _. exfalso. apply (Hb x); simpl; auto.
    + rewrite IH. split.
      * intros (before & after & El & Ho & Hb).
        exists (x :: before), after. simpl. rewrite El.
        repeat split; auto.
        intros y [<- | Hy]; auto.
      * intros (before & after & El & Ho & Hb).
        destruct before as [| y before]; simpl in El.
        -- injection El as <- _. contradiction.
        -- injection El as <- El. exists before, after.
           repeat split; auto.
           intros z Hz. apply Hb. simpl; auto.
Qed.

Lemma find_none_id (p : string) (overwrites : list RawOverwrite.t) :
  find (fun perm => (RawOverwrite.id perm =? p)%string) overwrites = None
  <-> forall x, In x overwrites -> RawOverwrite.id x <> p.
Proof.
  split.
  - intros H x Hx E.
    pose proof (find_none _ _ H x Hx) as Hf. simpl in Hf.
    apply String.eqb_neq in Hf. contradiction.
  - intros H. destruct (find _ overwrites) as [o |] eqn:Hf; [| reflexivity].
    apply find_some in Hf. destruct Hf as [Hin Heq].
    apply String.eqb_eq in Heq. exfalso. exact (H o Hin Heq).
Qed.

Lemma find_overwrite_matched (guildID id : string)
    (overwrites : list RawOverwrite.t) (o : RawOverwrite.t) :
  find_overwrite guildID id overwrites = Some o
  <-> matched_entry guildID id overwrites o.
Proof.
  unfold find_overwrite, matched_entry, or_else.
  destruct (find (fun perm => (RawOverwrite.id perm =? id)%string) overwrites)
    as [o' |] eqn:Hf.
  - split.
    + intros [= <-]. left. apply find_first_with_id. exact Hf.
    + intros [H | [Hnone _]].
      * apply find_first_with_id in H. congruence.
      * apply find_none_id in Hnone. congruence.
  - rewrite find_first_with_id. split.
    + intros H. right. split; [apply find_none_id; exact Hf | exact H].
    + intros [H | [_ H]]; [| exact H].
      apply find_first_with_id in H. congruence.
Qed.

Lemma find_overwrite_none (guildID id : string)
    (overwrites : list RawOverwrite.t) :
  find_overwrite guildID id overwrites = None
  <-> forall o, ~ matched_entry guildID id overwrites o.
Proof.
  split.
  - intros H o Hm. apply find_overwrite_matched in Hm. congruence.
  - intros H. destruct (find_overwrite guildID id overwrites) as [o |] eqn:E;
      [| reflexivity].
    apply find_overwrite_matched in E. exfalso. exact (H o E).
Qed.

Lemma overwrite_grants_bit (overwrite : option RawOverwrite.t) (k : N) :
  overwrite_grants overwrite (permission_bit k) = true
  <-> exists o, overwrite = Some o /\
        Z.testbit (RawOverwrite.allow o) (Z.of_N k) = true /\
        Z.testbit (RawOverwrite.deny o) (Z.of_N k) = false.
Proof.
  unfold overwrite_grants. destruct overwrite as [o |].
  - rewrite !land_permission_bit.
    destruct (Z.testbit (RawOverwrite.deny o) (Z.of_N k)) eqn:Hd,
             (Z.testbit (RawOverwrite.allow o) (Z.of_N k)) eqn:Ha;
      split; try discriminate; try (intros _; exists o; auto);
      intros (o' & [= <-] & H1 & H2); congruence.
  - split; [discriminate | intros (o & E & _); discriminate].
Qed.

(** ** Properties of the resolver *)

(** C1. For required permissions that are single bits, the resolver answers
    true exactly when every required bit is set in the allow mask and clear
    in the deny mask of the matched entry (the first entry for the principal,
    else the first entry for the root id); with no matched entry and a
    non-empty requirement it answers false, and a required bit that the
    matched entry denies makes it answer false whatever the allow mask. *)
Theorem channelOverwriteHasPermission_spec
    (guildID id : string) (overwrites : list RawOverwrite.t) (bits : list N) :
  (channelOverwriteHasPermission guildID id overwrites
     (map permission_bit bits) = true
   <-> forall k, In k bits ->
         exists o, matched_entry guildID id overwrites o /\
           Z.testbit (RawOverwrite.allow o) (Z.of_N k) = true /\
           Z.testbit (RawOverwrite.deny o) (Z.of_N k) = false)
  /\ (bits <> [] ->
      (forall o, ~ matched_entry guildID id overwrites o) ->
      channelOverwriteHasPermission guildID id overwrites
        (map permission_bit bits) = false /\
      forall k, In k bits ->
        overwrite_grants (find_overwrite guildID id overwrites)
          (permission_bit k) = false)
  /\ (forall o k, matched_entry guildID id overwrites o -> In k bits ->
      Z.testbit (RawOverwrite.deny o) (Z.of_N k) = true ->
      channelOverwriteHasPermission guildID id overwrites
        (map permission_bit bits) = false).
Proof.
  unfold channelOverwriteHasPermission.
  assert (Hall : forallb
                   (overwrite_grants (find_overwrite guildID id overwrites))
                   (map permission_bit bits) = true
                 <-> forall k, In k bits ->
                       exists o, matched_entry guildID id overwrites o /\
                         Z.testbit (RawOverwrite.allow o) (Z.of_N k) = true /\
                         Z.testbit (RawOverwrite.deny o) (Z.of_N k) = false).
  { rewrite forallb_forall. split.
    - intros H k Hk.
      specialize (H (permission_bit k) (in_map _ _ _ Hk)).
      apply overwrite_grants_bit in H. destruct H as (o & E & Ha & Hd).
      exists o. split; [apply find_overwrite_matched; exact E | auto].
    - intros H p Hp. apply in_map_iff in Hp. destruct Hp as (k & <- & Hk).
      destruct (H k Hk) as (o & Hm & Ha & Hd).
      apply overwrite_grants_bit. exists o.
      split; [apply find_overwrite_matched; exact Hm | auto]. }
  split; [exact Hall |]. split.
  - intros Hne Hnone. apply find_overwrite_none in Hnone. rewrite Hnone.
    split.
    + destruct bits as [| k rest]; [contradiction | reflexivity].
    + reflexivity.
  - intros o k Hm Hk Hd.
    apply not_true_is_false. intro Ht.
    destruct (proj1 Hall Ht k Hk) as (o' & Hm' & _ & Hd').
    apply find_overwrite_matched in Hm, Hm'. congruence.
Qed.

(** C9. With no required permission the resolver answers true, whatever the
    overwrite list and the two ids, matched entry or not. *)
Theorem channelOverwriteHasPermission_empty
    (guildID id : string) (overwrites : list RawOverwrite.t) :
  channelOverwriteHasPermission guildID id overwrites [] = true.
Proof.
  reflexivity.
Qed.

(** ** Lemmas on maps *)

Section MapFacts.
Context {V : Type}.
Implicit Types (k : string) (v : V) (m : list (string * V)).

Lemma Map_get_set_same k v m : Map_get k (Map_set k v m) = Some v.
Proof.
  induction m as [| [k' v'] rest IH]; simpl.
  - rewrite String.eqb_refl. reflexivity.
  - destruct (String.eqb_spec k' k) as [E | E]; simpl.
    + rewrite (proj2 (String.eqb_eq k' k) E). reflexivity.
    + rewrite (proj2 (String.eqb_neq k' k) E). exact IH.
Qed.

Lemma Map_get_set_other k k0 v m :
  k0 <> k -> Map_get k (Map_set k0 v m) = Map_get k m.
Proof.
  intros Hne. induction m as [| [k' v'] rest IH]; simpl.
  - rewrite (proj2 (String.eqb_neq k0 k) Hne). reflexivity.
  - destruct (String.eqb_spec k' k0) as [E | E]; simpl.
    + subst k'. rewrite (proj2 (String.eqb_neq k0 k) Hne). reflexivity.
    + destruct (k' =? k)%string; [reflexivity | exact IH].
Qed.

Lemma Map_get_delete_same k m : Map_get k (Map_delete k m) = None.
Proof.
  induction m as [| [k' v'] rest IH]; simpl; [reflexivity |].
  destruct (String.eqb_spec k' k) as [E | E]; simpl; [exact IH |].
  rewrite (proj2 (String.eqb_neq k' k) E). exact IH.
Qed.

Lemma Map_get_delete_other k k0 m :
  k0 <> k -> Map_get k (Map_delete k0 m) = Map_get k m.
Proof.
  intros Hne. induction m as [| [k' v'] rest IH]; simpl; [reflexivity |].
  destruct (String.eqb_spec k' k0) as [E | E]; simpl.
  - subst k'. rewrite (proj2 (String.eqb_neq k0 k) Hne). exact IH.
  - destruct (k' =? k)%string; [reflexivity | exact IH].
Qed.

Lemma Map_get_In k v m : Map_get k m = Some v -> In (k, v) m.
Proof.
  induction m as [| [k' v'] rest IH]; simpl; [discriminate |].
  destruct (String.eqb_spec k' k) as [E | E].
  - intros [= <-]. subst k'. left. reflexivity.
  - intros H. right. exact (IH H).
Qed.

Lemma Map_get_None_keys k m : Map_get k m = None <-> ~ In k (Map_keys m).
Proof.
  induction m as [| [k' v'] rest IH]; simpl.
  - split; [intros _ [] | reflexivity].
  - destruct (String.eqb_spec k' k) as [E | E].
    + split; [discriminate | intros H; exfalso; apply H; left; exact E].
    + rewrite IH. split.
      * intros H [H' | H']; [exact (E H') | exact (H H')].
      * intros H H'. apply H. right. exact H'.
Qed.

Lemma Map_keys_set_absent k v m :
  Map_get k m = None -> Map_keys (Map_set k v m) = Map_keys m ++ [k].
Proof.
  induction m as [| [k' v'] rest IH]; simpl; [reflexivity |].
  destruct (k' =? k)%string; [discriminate |].
  intros H. simpl. rewrite (IH H). reflexivity.
Qed.

Lemma Map_keys_set_present k v v0 m :
  Map_get k m = Some v0 -> Map_keys (Map_set k v m) = Map_keys m.
Proof.
  induction m as [| [k' v'] rest IH]; simpl; [discriminate |].
  destruct (k' =? k)%string; [reflexivity |].
  intros H. simpl. rewrite (IH H). reflexivity.
Qed.

Lemma Map_set_In k v m k1 v1 :
  In (k1, v1) (Map_set k v m) -> In (k1, v1) m \/ (k1 = k /\ v1 = v).
Proof.
  induction m as [| [k' v'] rest IH]; simpl.
  - intros [[= <- <-] | []]. right. split; reflexivity.
  - destruct (String.eqb_spec k' k) as [E | E]; simpl.
    + intros [[= <- <-] | H]; [right; split; [exact E | reflexivity] |].
      left. right. exact H.
    + intros [H | H]; [left; left; exact H |].
      destruct (IH H) as [H' | H']; [left; right; exact H' | right; exact H'].
Qed.

Lemma Map_delete_In k m k1 v1 :
  In (k1, v1) (Map_delete k m) -> In (k1, v1) m.
Proof.
  induction m as [| [k' v'] rest IH]; simpl; [intros [] |].
  destruct (k' =? k)%string; simpl.
  - intros H. right. exact (IH H).
  - intros [H | H]; [left; exact H | right; exact (IH H)].
Qed.

Lemma Map_keys_delete k m :
  Map_keys (Map_delete k m)
  = filter (fun k' => negb (k' =? k)%string) (Map_keys m).
Proof.
  induction m as [| [k' v'] rest IH]; simpl; [reflexivity |].
  destruct (k' =? k)%string; simpl; [exact IH |].
  rewrite IH. reflexivity.
Qed.

Lemma Map_keys_set_NoDup k v m :
  NoDup (Map_keys m) -> NoDup (Map_keys (Map_set k v m)).
Proof.
  intros Hnd. destruct (Map_get k m) as [v0 |] eqn:Hg.
  - rewrite (Map_keys_set_present k v v0 m Hg). exact Hnd.
  - rewrite (Map_keys_set_absent k v m Hg).
    apply NoDup_app; [exact Hnd | repeat constructor; intros [] |].
    intros x Hx [<- | []]. apply Map_get_None_keys in Hg. exact (Hg Hx).
Qed.

Lemma Map_keys_delete_NoDup k m :
  NoDup (Map_keys m) -> NoDup (Map_keys (Map_delete k m)).
Proof.
  intros Hnd. rewrite Map_keys_delete. apply NoDup_filter. exact Hnd.
Qed.

End MapFacts.

(** ** Properties of editChannel that need no invariant *)

Section EditChannelFacts.

Variable Permissions : string -> Z.
Variable botHasChannelPermissions : string -> list Z -> bool.

Local Abbreviation edit :=
  (editChannel Permissions botHasChannelPermissions).
Local Abbreviation payload := (editChannel_payload Permissions).
Local Abbreviation authorised :=
  (may_manage Permissions botHasChannelPermissions).

Lemma editChannel_not_throttled
    (now : Z) (channelID : string) (options : ChannelEditOptions.t)
    (reason : option string) (s : State) :
  authorised channelID ->
  touches_name_or_topic options = false ->
  edit now channelID options reason s
  = forward Permissions channelID options reason s.
Proof.
  intros Hp Ht. unfold may_manage in Hp. unfold editChannel.
  rewrite Hp, Ht. reflexivity.
Qed.

(** C5. Without the MANAGE_CHANNELS capability the call rejects with
    MISSING_MANAGE_CHANNELS and returns the state it was given: no request
    reaches the transport and the queue, the drain flag, the suspended calls
    and the timers are what they were. *)
Theorem editChannel_missing_permission
    (now : Z) (channelID : string) (options : ChannelEditOptions.t)
    (reason : option string) (s : State) :
  botHasChannelPermissions channelID [Permissions "MANAGE_CHANNELS"] = false ->
  edit now channelID options reason s
  = (Thrown MISSING_MANAGE_CHANNELS, s).
Proof.
  intros Hp. unfold editChannel. rewrite Hp. reflexivity.
Qed.

(** C7. An authorised edit that sets neither name nor topic is handed to
    the transport at once; the queue and the drain flag stay as they were,
    and what the call settles to is the same in every state. *)
Theorem editChannel_other_fields
    (now : Z) (channelID : string) (options : ChannelEditOptions.t)
    (reason : option string) (s : State) :
  authorised channelID ->
  ChannelEditOptions.name options = None ->
  ChannelEditOptions.topic options = None ->
  let r := mkPatch channelID (payload options reason) in
  let result := edit now channelID options reason s in
  fst result = Forwarded r /\
  patched (snd result) = patched s ++ [r] /\
  editChannelNameTopicQueue (snd result) = editChannelNameTopicQueue s /\
  editChannelProcessing (snd result) = editChannelProcessing s /\
  resubmitted (snd result) = resubmitted s /\
  timeouts (snd result) = timeouts s /\
  forall s', fst (edit now channelID options reason s') = fst result.
Proof.
  intros Hp Hn Ht r result.
  assert (Hc : touches_name_or_topic options = false).
  { unfold touches_name_or_topic. rewrite Hn, Ht. reflexivity. }
  subst result.
  rewrite (editChannel_not_throttled now channelID options reason s Hp Hc).
  repeat split.
  intros s'.
  rewrite (editChannel_not_throttled now channelID options reason s' Hp Hc).
  reflexivity.
Qed.

(** C10. An authorised edit whose name or topic is the empty string, the
    other of the two being absent or empty as well, is handed to the
    transport at once in every state, a record at count 2 included, and
    leaves the queue and the drain flag as they were. *)
Theorem editChannel_empty_name_or_topic
    (now : Z) (channelID : string) (options : ChannelEditOptions.t)
    (reason : option string) (s : State) :
  authorised channelID ->
  ChannelEditOptions.name options = Some ""
    \/ ChannelEditOptions.topic options = Some "" ->
  ChannelEditOptions.name options = None
    \/ ChannelEditOptions.name options = Some "" ->
  ChannelEditOptions.topic options = None
    \/ ChannelEditOptions.topic options = Some "" ->
  let r := mkPatch channelID (payload options reason) in
  let result := edit now channelID options reason s in
  fst result = Forwarded r /\
  patched (snd result) = patched s ++ [r] /\
  editChannelNameTopicQueue (snd result) = editChannelNameTopicQueue s /\
  editChannelProcessing (snd result) = editChannelProcessing s.
Proof.
  intros Hp _ Hn Ht r result.
  assert (Hc : touches_name_or_topic options = false).
  { unfold touches_name_or_topic.
    destruct Hn as [-> | ->], Ht as [-> | ->]; reflexivity. }
  subst result.
  rewrite (editChannel_not_throttled now channelID options reason s Hp Hc).
  repeat split.
Qed.

End EditChannelFacts.

(** ** The drain pass and the suspended calls *)

Section QueueFacts.

Variable Permissions : string -> Z.
Variable botHasChannelPermissions : string -> list Z -> bool.

Local Abbreviation edit :=
  (editChannel Permissions botHasChannelPermissions).
Local Abbreviation payload := (editChannel_payload Permissions).
Local Abbreviation authorised :=
  (may_manage Permissions botHasChannelPermissions).
Local Abbreviation resume_calls :=
  (resume Permissions botHasChannelPermissions).

Lemma filed_set k r q :
  filed_under_own_id q -> EditChannelRequest.channelID r = k ->
  filed_under_own_id (Map_set k r q).
Proof.
  intros Hq Hr k1 r1 Hin.
  destruct (Map_set_In _ _ _ _ _ Hin) as [H | [-> ->]];
    [exact (Hq _ _ H) | exact Hr].
Qed.

Lemma filed_delete k q :
  filed_under_own_id q -> filed_under_own_id (Map_delete k q).
Proof.
  intros Hq k1 r1 Hin. exact (Hq _ _ (Map_delete_In _ _ _ _ Hin)).
Qed.

(** Arming the timer or clearing the flag leaves the map of the pass as it
    is. *)
Lemma processEditChannelQueue_queue (now : Z) (s : State) :
  editChannelNameTopicQueue (processEditChannelQueue now s)
  = if editChannelProcessing s
    then editChannelNameTopicQueue
           (fold_left (drain_request now)
              (Map_keys (editChannelNameTopicQueue s)) s)
    else editChannelNameTopicQueue s.
Proof.
  unfold processEditChannelQueue.
  destruct (editChannelProcessing s); simpl; [| reflexivity].
  destruct (editChannelNameTopicQueue
              (fold_left (drain_request now)
                 (Map_keys (editChannelNameTopicQueue s)) s)) eqn:E;
    simpl; rewrite E; reflexivity.
Qed.

(** A visit of the drain pass to another key leaves the record of [c]
    alone, in a map whose entries are filed under their own id. *)
Lemma drain_request_frame (now : Z) (c key : string) (s : State) :
  filed_under_own_id (editChannelNameTopicQueue s) ->
  key <> c ->
  let s' := drain_request now s key in
  Map_get c (editChannelNameTopicQueue s')
    = Map_get c (editChannelNameTopicQueue s) /\
  filed_under_own_id (editChannelNameTopicQueue s') /\
  patched s' = patched s /\
  editChannelProcessing s' = editChannelProcessing s /\
  timeouts s' = timeouts s /\
  exists extra, resubmitted s' = resubmitted s ++ extra.
Proof.
  intros Hf Hne. unfold drain_request.
  destruct (Map_get key (editChannelNameTopicQueue s)) as [request |] eqn:Hg.
  2: { repeat split; auto. exists []. symmetry. apply app_nil_r. }
  pose proof (Hf _ _ (Map_get_In _ _ _ Hg)) as Hid.
  destruct (now >? EditChannelRequest.timestamp request).
  { repeat split; auto. exists []. symmetry. apply app_nil_r. }
  destruct (EditChannelRequest.items request) as [| details [| second rest]];
    simpl.
  - rewrite Hid. rewrite Map_get_delete_other by exact Hne.
    repeat split; auto using filed_delete.
    exists []. symmetry. apply app_nil_r.
  - rewrite Map_get_set_other by exact Hne.
    repeat split; auto using filed_set. eexists. reflexivity.
  - rewrite Map_get_set_other by exact Hne.
    repeat split; auto using filed_set. eexists. reflexivity.
Qed.

Lemma drain_pass_frame (now : Z) (c : string) (keys : list string) :
  ~ In c keys ->
  forall s,
    filed_under_own_id (editChannelNameTopicQueue s) ->
    let s' := fold_left (drain_request now) keys s in
    Map_get c (editChannelNameTopicQueue s')
      = Map_get c (editChannelNameTopicQueue s) /\
    filed_under_own_id (editChannelNameTopicQueue s') /\
    patched s' = patched s /\
    editChannelProcessing s' = editChannelProcessing s /\
    timeouts s' = timeouts s /\
    exists extra, resubmitted s' = resubmitted s ++ extra.
Proof.
  induction keys as [| key keys IH]; intros Hnot s Hf; simpl.
  - repeat split; auto. exists []. symmetry. apply app_nil_r.
  - assert (Hne : key <> c) by (intro E; apply Hnot; left; exact E).
    assert (Hnot' : ~ In c keys) by (intro E; apply Hnot; right; exact E).
    destruct (drain_request_frame now c key s Hf Hne)
      as (Hg & Hf' & Hp & Hb & Ht & extra & Hr).
    destruct (IH Hnot' (drain_request now s key) Hf')
      as (Hg2 & Hf2 & Hp2 & Hb2 & Ht2 & extra2 & Hr2).
    repeat split; try congruence; auto.
    exists (extra ++ extra2). rewrite Hr2, Hr, app_assoc. reflexivity.
Qed.

(** While the drain cycle is running and the record of [c] is not at count
    1, no call of [editChannel] hands a name or topic edit of [c] to the
    transport, starts a drain pass or takes anything out of the queue of
    [c]; an authorised name or topic edit of [c] joins that queue. *)
Lemma edit_backlogged (c : string) (now : Z) (ch : string)
    (o : ChannelEditOptions.t) (reason : option string) (s : State) :
  backlogged c s ->
  let s' := snd (edit now ch o reason s) in
  backlogged c s' /\
  throttled_edits_of c (patched s') = throttled_edits_of c (patched s) /\
  resubmitted s' = resubmitted s /\
  timeouts s' = timeouts s /\
  (forall e, queued_for c e s -> queued_for c e s') /\
  (ch = c -> authorised c -> touches_name_or_topic o = true ->
   queued_for c (mkQueued c o) s').
Proof.
  intros [Hproc (r & Hg & Ha)]. unfold editChannel.
  destruct (botHasChannelPermissions ch [Permissions "MANAGE_CHANNELS"])
    eqn:Hp; simpl.
  2: { repeat split; auto.
       - exists r. auto.
       - intros -> Hauth. unfold may_manage in Hauth. congruence. }
  destruct (touches_name_or_topic o) eqn:Ht.
  2: { simpl. unfold throttled_edits_of. rewrite filter_app. simpl.
       rewrite Ht, andb_false_r, app_nil_r.
       repeat split; auto.
       - exists r. auto.
       - discriminate. }
  destruct (String.eqb_spec ch c) as [-> | Hne].
  - rewrite Hg. rewrite (proj2 (Z.eqb_neq _ _) Ha). simpl.
    rewrite Hproc. simpl.
    repeat split; auto.
    + eexists. simpl. rewrite Map_get_set_same. split; [reflexivity | exact Ha].
    + intros e (r' & Hg' & Hin). rewrite Hg in Hg'. injection Hg' as <-.
      eexists. simpl. rewrite Map_get_set_same. split; [reflexivity |].
      simpl. apply in_or_app. left. exact Hin.
    + intros _ _ _. eexists. simpl. rewrite Map_get_set_same.
      split; [reflexivity |]. simpl. apply in_or_app. right. left.
      reflexivity.
  - assert (Hlog : forall reason' log,
               throttled_edits_of c (log ++ [mkPatch ch (payload o reason')])
               = throttled_edits_of c log).
    { intros reason' log. unfold throttled_edits_of.
      rewrite filter_app. simpl.
      rewrite (proj2 (String.eqb_neq ch c) Hne). simpl. apply app_nil_r. }
    assert (Hkeep : forall v e,
               queued_for c e s ->
               queued_for c e
                 (with_queue (Map_set ch v (editChannelNameTopicQueue s)) s)).
    { intros v e (r' & Hg' & Hin). exists r'. simpl.
      rewrite Map_get_set_other by exact Hne. auto. }
    assert (Hback : forall v,
               exists r',
                 Map_get c (Map_set ch v (editChannelNameTopicQueue s))
                 = Some r' /\ EditChannelRequest.amount r' <> 1).
    { intros v. exists r. rewrite Map_get_set_other by exact Hne. auto. }
    destruct (Map_get ch (editChannelNameTopicQueue s)) as [r0 |] eqn:Hg0;
      [destruct (EditChannelRequest.amount r0 =? 1) |];
      simpl; rewrite ?Hlog, ?Hproc; simpl;
      (split; [split; [exact Hproc | apply Hback] |]);
      (split; [reflexivity |]); (split; [reflexivity |]);
      (split; [reflexivity |]);
      (split; [intros e He; apply (Hkeep _ e He) | intros E; contradiction]).
Qed.

(** The same, for the suspended calls run one after the other; once each of
    them has run none is left, and the authorised name or topic edits of [c]
    among them are back in the queue of [c]. *)
Lemma resume_backlogged (c : string) (clock : list Z) :
  forall s,
    backlogged c s ->
    let s' := resume_calls clock s in
    backlogged c s' /\
    throttled_edits_of c (patched s') = throttled_edits_of c (patched s) /\
    timeouts s' = timeouts s /\
    (forall e, queued_for c e s -> queued_for c e s') /\
    ((List.length (resubmitted s) <= List.length clock)%nat ->
     resubmitted s' = [] /\
     forall o,
       authorised c -> touches_name_or_topic o = true ->
       In (mkQueued c o) (resubmitted s) ->
       queued_for c (mkQueued c o) s').
Proof.
  induction clock as [| now clock IH]; intros s Hb; simpl.
  - split; [exact Hb |]. split; [reflexivity |]. split; [reflexivity |].
    split; [auto |]. intros Hlen.
    destruct (resubmitted s); [| simpl in Hlen; lia].
    split; [reflexivity | intros o _ _ []].
  - destruct (resubmitted s) as [| call rest] eqn:Hr.
    + split; [exact Hb |]. split; [reflexivity |]. split; [reflexivity |].
      split; [auto |]. intros _. split; [exact Hr | intros o _ _ []].
    + set (s0 := with_resubmitted rest s).
      assert (Hb0 : backlogged c s0) by exact Hb.
      destruct (edit_backlogged c now (queued_channelID call)
                  (queued_options call) None s0 Hb0)
        as (Hb1 & Hlog1 & Hres1 & Htim1 & Hmono1 & Hnew1).
      destruct (IH _ Hb1) as (Hb2 & Hlog2 & Htim2 & Hmono2 & Hdone2).
      split; [exact Hb2 |].
      split; [rewrite Hlog2, Hlog1; reflexivity |].
      split; [rewrite Htim2, Htim1; reflexivity |].
      split; [intros e He; apply Hmono2, Hmono1; exact He |].
      intros Hlen. simpl in Hlen.
      assert (Hlen1 : (List.length
                         (resubmitted
                            (snd (edit now (queued_channelID call)
                                    (queued_options call) None s0)))
                       <= List.length clock)%nat).
      { rewrite Hres1. simpl. lia. }
      destruct (Hdone2 Hlen1) as [Hnil Hback].
      split; [exact Hnil |].
      intros o Hauth Ht [E | Hin].
      * apply Hmono2. subst call. simpl in Hnew1. apply Hnew1; auto.
      * apply Hback; auto. rewrite Hres1. exact Hin.
Qed.

(** A drain pass that leaves a record in the map arms the next timer. *)
Lemma processEditChannelQueue_rearms (now : Z) (c : string)
    (r : EditChannelRequest.t) (s : State) :
  editChannelProcessing s = true ->
  let s' :=
    fold_left (drain_request now) (Map_keys (editChannelNameTopicQueue s)) s in
  Map_get c (editChannelNameTopicQueue s') = Some r ->
  processEditChannelQueue now s
  = with_timeouts (timeouts s' ++ [now + window]) s'.
Proof.
  intros Hproc s' Hg. unfold processEditChannelQueue. rewrite Hproc. simpl.
  fold s'. destruct (editChannelNameTopicQueue s'); [discriminate Hg |].
  reflexivity.
Qed.

(** The drain pass that the first deferred edit of [c] starts: the record
    of [c], the last of the map, holds that one edit. The pass hands nothing
    to the transport, and the edit is either still queued or suspended in a
    call of [editChannel]. *)
Lemma first_drain_pass (now : Z) (c : string) (keys : list string)
    (r : EditChannelRequest.t) (e : QueuedEdit) (s : State) :
  editChannelProcessing s = true ->
  filed_under_own_id (editChannelNameTopicQueue s) ->
  Map_keys (editChannelNameTopicQueue s) = keys ++ [c] ->
  ~ In c keys ->
  Map_get c (editChannelNameTopicQueue s) = Some r ->
  EditChannelRequest.items r = [e] ->
  EditChannelRequest.amount r <> 1 ->
  let s' := processEditChannelQueue now s in
  backlogged c s' /\
  patched s' = patched s /\
  (queued_for c e s' \/ In e (resubmitted s')).
Proof.
  intros Hproc Hf Hkeys Hnot Hg Hitems Ha s'.
  set (sA := fold_left (drain_request now) keys s).
  destruct (drain_pass_frame now c keys Hnot s Hf)
    as (HgA & HfA & HpA & HbA & _ & _).
  fold sA in HgA, HfA, HpA, HbA.
  set (sB := drain_request now sA c).
  assert (HsB : fold_left (drain_request now)
                  (Map_keys (editChannelNameTopicQueue s)) s = sB).
  { rewrite Hkeys, fold_left_app. reflexivity. }
  assert (Hcases :
            exists r',
              Map_get c (editChannelNameTopicQueue sB) = Some r' /\
              EditChannelRequest.amount r' <> 1 /\
              patched sB = patched s /\
              editChannelProcessing sB = true /\
              (In e (EditChannelRequest.items r') \/ In e (resubmitted sB))).
  { subst sB. unfold drain_request. rewrite HgA, Hg.
    destruct (now >? EditChannelRequest.timestamp r).
    - exists r. rewrite HgA, Hg, HpA, HbA, Hitems.
      repeat split; auto. left. left. reflexivity.
    - rewrite Hitems. simpl. rewrite Map_get_set_same. eexists.
      split; [reflexivity |]. simpl.
      split; [lia |]. split; [exact HpA |].
      split; [rewrite HbA; exact Hproc |].
      right. apply in_or_app. right. left. reflexivity. }
  destruct Hcases as (r' & HgB & HaB & HpB & HbB & Hwhere).
  subst s'.
  rewrite (processEditChannelQueue_rearms now c r' s Hproc);
    rewrite HsB; [| exact HgB].
  split; [split; [exact HbB | exists r'; auto] |].
  split; [exact HpB |].
  destruct Hwhere as [H | H]; [left; exists r'; auto | right; exact H].
Qed.

(** C2. Three authorised name or topic edits of a channel that has no
    record. The first creates the record with count 1 and expiry now + 10
    minutes and goes to the transport; the second sets the count to 2,
    renews the expiry and goes to the transport; the third settles to
    undefined and hands nothing to the transport. It is put in the queue of
    the record: it is the whole queue when the drain cycle is already running,
    and otherwise the drain pass the call starts may take it out and call
    [editChannel] on it again. However many of the suspended calls then run,
    as long as no timer fires no name or topic edit of the channel reaches
    the transport, and once they have all run the third edit is in the
    queue. *)
Theorem three_rapid_edits
    (c : string) (o1 o2 o3 : ChannelEditOptions.t)
    (reason1 reason2 reason3 : option string) (t1 t2 t3 : Z)
    (clock : list Z) (s : State) :
  authorised c ->
  touches_name_or_topic o1 = true ->
  touches_name_or_topic o2 = true ->
  touches_name_or_topic o3 = true ->
  filed_under_own_id (editChannelNameTopicQueue s) ->
  Map_get c (editChannelNameTopicQueue s) = None ->
  let first := edit t1 c o1 reason1 s in
  let second := edit t2 c o2 reason2 (snd first) in
  let third := edit t3 c o3 reason3 (snd second) in
  let settled := resume_calls clock (snd third) in
  (fst first = Forwarded (mkPatch c (payload o1 reason1)) /\
   patched (snd first) = patched s ++ [mkPatch c (payload o1 reason1)] /\
   Map_get c (editChannelNameTopicQueue (snd first))
   = Some (EditChannelRequest.mk 1 (t1 + window) c []))
  /\
  (fst second = Forwarded (mkPatch c (payload o2 reason2)) /\
   patched (snd second)
   = patched (snd first) ++ [mkPatch c (payload o2 reason2)] /\
   Map_get c (editChannelNameTopicQueue (snd second))
   = Some (EditChannelRequest.mk 2 (t2 + window) c []))
  /\
  (fst third = Deferred /\
   patched (snd third) = patched (snd second) /\
   (queued_for c (mkQueued c o3) (snd third)
    \/ In (mkQueued c o3) (resubmitted (snd third))) /\
   (editChannelProcessing s = true ->
    Map_get c (editChannelNameTopicQueue (snd third))
    = Some (EditChannelRequest.mk 2 (t2 + window) c [mkQueued c o3])))
  /\
  (throttled_edits_of c (patched settled)
   = throttled_edits_of c (patched (snd second)) /\
   timeouts settled = timeouts (snd third) /\
   ((List.length (resubmitted (snd third)) <= List.length clock)%nat ->
    resubmitted settled = [] /\ queued_for c (mkQueued c o3) settled)).
Proof.
  intros Hauth Ht1 Ht2 Ht3 Hf Hnone first second third settled.
  pose proof Hauth as Hp. unfold may_manage in Hp.
  set (q := editChannelNameTopicQueue s) in *.
  set (rec1 := EditChannelRequest.mk 1 (t1 + window) c []).
  set (rec2 := EditChannelRequest.mk 2 (t2 + window) c []).
  set (rec3 := EditChannelRequest.mk 2 (t2 + window) c [mkQueued c o3]).
  set (p1 := mkPatch c (payload o1 reason1)).
  set (p2 := mkPatch c (payload o2 reason2)).
  (* the first edit *)
  assert (E1 : first
               = (Forwarded p1,
                  with_patched (patched s ++ [p1])
                    (with_queue (Map_set c rec1 q) s))).
  { subst first. unfold editChannel. rewrite Hp, Ht1. simpl.
    fold q. rewrite Hnone. reflexivity. }
  (* the second edit *)
  assert (E2 : second
               = (Forwarded p2,
                  with_patched ((patched s ++ [p1]) ++ [p2])
                    (with_queue (Map_set c rec2 (Map_set c rec1 q)) s))).
  { subst second. rewrite E1. unfold editChannel. rewrite Hp, Ht2. simpl.
    rewrite Map_get_set_same. reflexivity. }
  (* the state in which the third edit has been pushed *)
  set (q3 := Map_set c rec3 (Map_set c rec2 (Map_set c rec1 q))).
  set (pushed := with_queue q3 (snd second)).
  assert (E3 : third
               = (Deferred,
                  if editChannelProcessing s then pushed
                  else processEditChannelQueue t3
                         (with_processing true pushed))).
  { subst third pushed q3. rewrite E2. unfold editChannel.
    rewrite Hp, Ht3. simpl. rewrite Map_get_set_same. simpl.
    destruct (editChannelProcessing s); reflexivity. }
  assert (Hkeys : Map_keys q3 = Map_keys q ++ [c]).
  { subst q3.
    rewrite (Map_keys_set_present c rec3 rec2) by apply Map_get_set_same.
    rewrite (Map_keys_set_present c rec2 rec1) by apply Map_get_set_same.
    apply Map_keys_set_absent. exact Hnone. }
  assert (Hf3 : filed_under_own_id q3).
  { subst q3. repeat apply filed_set; auto. }
  assert (Hq3 : Map_get c q3 = Some rec3) by apply Map_get_set_same.
  assert (Hthird :
            backlogged c (snd third) /\
            patched (snd third) = patched (snd second) /\
            (queued_for c (mkQueued c o3) (snd third)
             \/ In (mkQueued c o3) (resubmitted (snd third)))).
  { rewrite E3. cbn [snd]. destruct (editChannelProcessing s) eqn:Hproc.
    - subst pushed. rewrite E2. cbn [snd].
      split; [split; [exact Hproc |] |].
      + exists rec3. split; [exact Hq3 | simpl; lia].
      + split; [reflexivity |]. left. exists rec3.
        split; [exact Hq3 | left; reflexivity].
    - apply (first_drain_pass t3 c (Map_keys q) rec3 (mkQueued c o3)
               (with_processing true pushed)); auto.
      + apply Map_get_None_keys. exact Hnone.
      + simpl. lia. }
  destruct Hthird as (Hback & Hlog3 & Hwhere).
  destruct (resume_backlogged c clock (snd third) Hback)
    as (_ & Hlog & Htim & Hmono & Hdone).
  fold settled in Hlog, Htim, Hmono, Hdone.
  split; [| split; [| split]].
  - rewrite E1. simpl. split; [reflexivity |]. split; [reflexivity |].
    apply Map_get_set_same.
  - rewrite E2, E1. simpl. split; [reflexivity |]. split; [reflexivity |].
    apply Map_get_set_same.
  - split; [rewrite E3; reflexivity |]. split; [exact Hlog3 |].
    split; [exact Hwhere |].
    intros Hproc. rewrite E3, Hproc. exact Hq3.
  - split; [rewrite Hlog, Hlog3; reflexivity |]. split; [exact Htim |].
    intros Hlen. destruct (Hdone Hlen) as [Hnil Hreq].
    split; [exact Hnil |].
    destruct Hwhere as [H | H]; [apply Hmono; exact H |].
    apply Hreq; auto.
Qed.

(** *** Invariants of the reachable states *)

Lemma Map_get_set k k0 (r : EditChannelRequest.t) q :
  Map_get k (Map_set k0 r q)
  = if string_dec k0 k then Some r else Map_get k q.
Proof.
  destruct (string_dec k0 k) as [-> | Hne];
    [apply Map_get_set_same | apply Map_get_set_other; exact Hne].
Qed.

Lemma Map_get_delete k k0 (q : list (string * EditChannelRequest.t)) :
  Map_get k (Map_delete k0 q)
  = if string_dec k0 k then None else Map_get k q.
Proof.
  destruct (string_dec k0 k) as [-> | Hne];
    [apply Map_get_delete_same | apply Map_get_delete_other; exact Hne].
Qed.

Lemma burst_set k r q :
  burst_has_no_backlog q ->
  (EditChannelRequest.amount r = 1 -> EditChannelRequest.items r = []) ->
  burst_has_no_backlog (Map_set k r q).
Proof.
  intros Hq Hr k1 r1. rewrite Map_get_set.
  destruct (string_dec k k1); [intros [= <-]; exact Hr | apply Hq].
Qed.

Lemma burst_delete k q :
  burst_has_no_backlog q -> burst_has_no_backlog (Map_delete k q).
Proof.
  intros Hq k1 r1. rewrite Map_get_delete.
  destruct (string_dec k k1); [discriminate | apply Hq].
Qed.

Lemma drain_request_invariant (now : Z) (key : string) (s : State) :
  queue_invariant s -> queue_invariant (drain_request now s key).
Proof.
  intros [Hf Hb]. unfold drain_request.
  destruct (Map_get key (editChannelNameTopicQueue s)) as [request |] eqn:Hg;
    [| split; assumption].
  pose proof (Hf _ _ (Map_get_In _ _ _ Hg)) as Hid.
  destruct (now >? EditChannelRequest.timestamp request);
    [split; assumption |].
  destruct (EditChannelRequest.items request) as [| details [| second rest]];
    split; simpl;
    auto using filed_delete, burst_delete, filed_set;
    apply burst_set; auto; simpl; discriminate.
Qed.

Lemma drain_pass_invariant (now : Z) (keys : list string) :
  forall s,
    queue_invariant s ->
    queue_invariant (fold_left (drain_request now) keys s).
Proof.
  induction keys as [| key keys IH]; intros s Hs; simpl; [exact Hs |].
  apply IH, drain_request_invariant, Hs.
Qed.

Lemma processEditChannelQueue_invariant (now : Z) (s : State) :
  queue_invariant s -> queue_invariant (processEditChannelQueue now s).
Proof.
  intros Hinv. unfold queue_invariant.
  rewrite processEditChannelQueue_queue.
  destruct (editChannelProcessing s); [| exact Hinv].
  apply (drain_pass_invariant now _ s Hinv).
Qed.

Lemma editChannel_invariant (now : Z) (ch : string)
    (o : ChannelEditOptions.t) (reason : option string) (s : State) :
  queue_invariant s -> queue_invariant (snd (edit now ch o reason s)).
Proof.
  intros Hinv. pose proof Hinv as [Hf Hb]. unfold editChannel.
  destruct (negb _); [exact Hinv |].
  destruct (touches_name_or_topic o); [| exact Hinv].
  destruct (Map_get ch (editChannelNameTopicQueue s)) as [r |] eqn:Hg; simpl.
  - pose proof (Hf _ _ (Map_get_In _ _ _ Hg)) as Hid.
    destruct (Z.eqb_spec (EditChannelRequest.amount r) 1) as [E | E]; simpl.
    + split; simpl; [apply filed_set | apply burst_set]; auto.
      simpl. discriminate.
    + assert (Hpushed :
                queue_invariant
                  (with_queue
                     (Map_set ch
                        (EditChannelRequest.set_items
                           (EditChannelRequest.items r ++ [mkQueued ch o]) r)
                        (editChannelNameTopicQueue s))
                     s)).
      { split; simpl; [apply filed_set | apply burst_set]; auto.
        simpl. intros E'. contradiction. }
      destruct (editChannelProcessing s); simpl; [exact Hpushed |].
      apply processEditChannelQueue_invariant. exact Hpushed.
  - split; simpl; [apply filed_set | apply burst_set]; auto.
Qed.

(** *** The keys of the map stay distinct *)

Lemma drain_request_keys_unique (now : Z) (key : string) (s : State) :
  NoDup (Map_keys (editChannelNameTopicQueue s)) ->
  NoDup (Map_keys (editChannelNameTopicQueue (drain_request now s key))).
Proof.
  intros Hnd. unfold drain_request.
  destruct (Map_get key (editChannelNameTopicQueue s)) as [request |];
    [| exact Hnd].
  destruct (now >? EditChannelRequest.timestamp request); [exact Hnd |].
  destruct (EditChannelRequest.items request) as [| details [| second rest]];
    simpl; auto using Map_keys_set_NoDup, Map_keys_delete_NoDup.
Qed.

Lemma processEditChannelQueue_keys_unique (now : Z) (s : State) :
  NoDup (Map_keys (editChannelNameTopicQueue s)) ->
  NoDup (Map_keys (editChannelNameTopicQueue (processEditChannelQueue now s))).
Proof.
  intros Hnd. rewrite processEditChannelQueue_queue.
  destruct (editChannelProcessing s); [| exact Hnd].
  generalize (Map_keys (editChannelNameTopicQueue s)). revert s Hnd.
  intros s0 H0 keys. revert s0 H0.
  induction keys as [| key keys IH]; intros s0 H0; simpl; [exact H0 |].
  apply IH, drain_request_keys_unique, H0.
Qed.

Lemma editChannel_keys_unique (now : Z) (ch : string)
    (o : ChannelEditOptions.t) (reason : option string) (s : State) :
  NoDup (Map_keys (editChannelNameTopicQueue s)) ->
  NoDup (Map_keys (editChannelNameTopicQueue (snd (edit now ch o reason s)))).
Proof.
  intros Hnd. unfold editChannel.
  destruct (negb _); [exact Hnd |].
  destruct (touches_name_or_topic o); [| exact Hnd].
  destruct (Map_get ch (editChannelNameTopicQueue s)) as [r |]; simpl;
    [| apply Map_keys_set_NoDup; exact Hnd].
  destruct (EditChannelRequest.amount r =? 1); simpl;
    [apply Map_keys_set_NoDup; exact Hnd |].
  destruct (editChannelProcessing s); simpl;
    [apply Map_keys_set_NoDup; exact Hnd |].
  apply processEditChannelQueue_keys_unique. simpl.
  apply Map_keys_set_NoDup. exact Hnd.
Qed.

(** *** No drain pass hands a queued edit to the transport *)

(** A drain pass over a map that holds a record of [c] with a non-empty
    queue: the record stays, at a count other than 1; nothing reaches the
    transport; each queued edit is still queued or is suspended in a call of
    [editChannel]. *)
Lemma drain_pass_backlog (now : Z) (c : string) (r : EditChannelRequest.t)
    (s : State) :
  editChannelProcessing s = true ->
  queue_invariant s ->
  NoDup (Map_keys (editChannelNameTopicQueue s)) ->
  Map_get c (editChannelNameTopicQueue s) = Some r ->
  EditChannelRequest.items r <> [] ->
  let s' := processEditChannelQueue now s in
  backlogged c s' /\
  patched s' = patched s /\
  forall e,
    In e (EditChannelRequest.items r) ->
    queued_for c e s' \/ In e (resubmitted s').
Proof.
  intros Hproc Hinv Hnd Hg Hitems s'.
  assert (Hin : In c (Map_keys (editChannelNameTopicQueue s))).
  { destruct (in_dec string_dec c (Map_keys (editChannelNameTopicQueue s)))
      as [H | H]; [exact H |].
    apply Map_get_None_keys in H. congruence. }
  destruct (in_split _ _ Hin) as (ks1 & ks2 & Hkeys).
  rewrite Hkeys in Hnd. pose proof (NoDup_remove_2 _ _ _ Hnd) as Hnot.
  assert (Hnot1 : ~ In c ks1) by (intro H; apply Hnot, in_or_app; auto).
  assert (Hnot2 : ~ In c ks2) by (intro H; apply Hnot, in_or_app; auto).
  set (sA := fold_left (drain_request now) ks1 s).
  destruct (drain_pass_frame now c ks1 Hnot1 s (proj1 Hinv))
    as (HgA & _ & HpA & HbA & _ & _).
  fold sA in HgA, HpA, HbA.
  pose proof (drain_pass_invariant now ks1 s Hinv) as HinvA. fold sA in HinvA.
  set (sB := drain_request now sA c).
  pose proof (drain_request_invariant now c sA HinvA) as HinvB.
  fold sB in HinvB.
  assert (HB : exists r',
             Map_get c (editChannelNameTopicQueue sB) = Some r' /\
             EditChannelRequest.amount r' <> 1 /\
             patched sB = patched s /\
             editChannelProcessing sB = true /\
             forall e,
               In e (EditChannelRequest.items r) ->
               In e (EditChannelRequest.items r') \/ In e (resubmitted sB)).
  { subst sB. unfold drain_request. rewrite HgA, Hg.
    destruct (now >? EditChannelRequest.timestamp r).
    - exists r. rewrite HgA, Hg, HpA, HbA.
      split; [reflexivity |]. split; [| auto].
      intros E. apply Hitems. exact (proj2 Hinv c r Hg E).
    - destruct (EditChannelRequest.items r) as [| d1 [| d2 rest]] eqn:Hi;
        [contradiction | |];
        simpl; rewrite Map_get_set_same; eexists;
        (split; [reflexivity |]); simpl;
        (split; [lia |]); (split; [exact HpA |]);
        (split; [rewrite HbA; exact Hproc |]).
      + intros e [<- | []]. right. apply in_or_app. right. left. reflexivity.
      + intros e [<- | [<- | He]].
        * right. apply in_or_app. right. left. reflexivity.
        * right. apply in_or_app. right. right. left. reflexivity.
        * left. exact He. }
  destruct HB as (r' & HgB & HaB & HpB & HbB & HwhereB).
  set (sC := fold_left (drain_request now) ks2 sB).
  destruct (drain_pass_frame now c ks2 Hnot2 sB (proj1 HinvB))
    as (HgC & _ & HpC & HbC & _ & extra & HrC).
  fold sC in HgC, HpC, HbC, HrC.
  assert (HsC : fold_left (drain_request now)
                  (Map_keys (editChannelNameTopicQueue s)) s = sC).
  { rewrite Hkeys, fold_left_app. reflexivity. }
  subst s'.
  rewrite (processEditChannelQueue_rearms now c r' s Hproc);
    rewrite HsC; [| rewrite HgC; exact HgB].
  split; [split; [simpl; rewrite HbC; exact HbB |] |].
  - exists r'. simpl. rewrite HgC. auto.
  - split; [simpl; rewrite HpC; exact HpB |].
    intros e He. destruct (HwhereB e He) as [H | H].
    + left. exists r'. simpl. rewrite HgC. auto.
    + right. simpl. rewrite HrC. apply in_or_app. left. exact H.
Qed.

(** A drain tick, with however many of the calls it made run afterwards:
    no name or topic edit of [c] reaches the transport and the record of
    [c] stays in the map; once all the calls have run, the edits that were
    queued are queued again. *)
Lemma drain_tick_never_forwards (now : Z) (clock : list Z) (c : string)
    (r : EditChannelRequest.t) (s : State) :
  editChannelProcessing s = true ->
  queue_invariant s ->
  NoDup (Map_keys (editChannelNameTopicQueue s)) ->
  Map_get c (editChannelNameTopicQueue s) = Some r ->
  EditChannelRequest.items r <> [] ->
  let s' := drain_tick Permissions botHasChannelPermissions now clock s in
  throttled_edits_of c (patched s') = throttled_edits_of c (patched s) /\
  backlogged c s' /\
  (authorised c ->
   (List.length (resubmitted (processEditChannelQueue now s))
    <= List.length clock)%nat ->
   forall o,
     In (mkQueued c o) (EditChannelRequest.items r) ->
     touches_name_or_topic o = true ->
     queued_for c (mkQueued c o) s').
Proof.
  intros Hproc Hinv Hnd Hg Hitems s'.
  destruct (drain_pass_backlog now c r s Hproc Hinv Hnd Hg Hitems)
    as (Hback & Hlog & Hwhere).
  destruct (resume_backlogged c clock _ Hback)
    as (Hback' & Hlog' & _ & Hmono & Hdone).
  subst s'. unfold drain_tick.
  split; [rewrite Hlog', Hlog; reflexivity |].
  split; [exact Hback' |].
  intros Hauth Hlen o Hin Ht.
  destruct (Hwhere _ Hin) as [H | H]; [apply Hmono; exact H |].
  apply (proj2 (Hdone Hlen)); auto.
Qed.

(** *** No drain pass removes a record whose window has elapsed *)

(** A record whose expiry lies before the time of the pass is skipped, its
    queue empty or not. *)
Lemma drain_pass_skips_elapsed (now : Z) (c : string)
    (r : EditChannelRequest.t) (s : State) :
  filed_under_own_id (editChannelNameTopicQueue s) ->
  Map_get c (editChannelNameTopicQueue s) = Some r ->
  EditChannelRequest.timestamp r < now ->
  Map_get c (editChannelNameTopicQueue (processEditChannelQueue now s))
  = Some r.
Proof.
  intros Hf Hg Hlate.
  assert (Hfold : forall keys s0,
             filed_under_own_id (editChannelNameTopicQueue s0) ->
             Map_get c (editChannelNameTopicQueue s0) = Some r ->
             Map_get c
               (editChannelNameTopicQueue
                  (fold_left (drain_request now) keys s0))
             = Some r).
  { induction keys as [| key keys IH]; intros s0 Hf0 Hg0; simpl;
      [exact Hg0 |].
    destruct (string_dec key c) as [-> | Hne].
    - assert (Hskip : drain_request now s0 c = s0).
      { unfold drain_request. rewrite Hg0.
        rewrite (proj2 (Z.gtb_lt _ _) Hlate). reflexivity. }
      rewrite Hskip. apply IH; assumption.
    - destruct (drain_request_frame now c key s0 Hf0 Hne)
        as (Hg1 & Hf1 & _).
      apply IH; [exact Hf1 | rewrite Hg1; exact Hg0]. }
  rewrite processEditChannelQueue_queue.
  destruct (editChannelProcessing s); [| exact Hg].
  apply Hfold; assumption.
Qed.

(** A visit of the drain pass changes a record in one of three ways only. *)
Lemma drain_request_after_drain (now : Z) (b key : string)
    (before : option EditChannelRequest.t) (s : State) :
  after_drain before (Map_get b (editChannelNameTopicQueue s)) ->
  after_drain before
    (Map_get b (editChannelNameTopicQueue (drain_request now s key))).
Proof.
  intros Hpre. unfold drain_request.
  destruct (Map_get key (editChannelNameTopicQueue s)) as [request |] eqn:Hg;
    [| exact Hpre].
  destruct (now >? EditChannelRequest.timestamp request); [exact Hpre |].
  assert (Hset : forall rest,
             EditChannelRequest.items request <> [] ->
             after_drain before
               (Map_get b
                  (Map_set key
                     (EditChannelRequest.set_items rest
                        (EditChannelRequest.set_amount 0 request))
                     (editChannelNameTopicQueue s)))).
  { intros rest Hne. destruct (string_dec key b) as [-> | Hkb].
    - rewrite Map_get_set_same. right. right.
      rewrite Hg in Hpre.
      destruct Hpre as [H | [H | (r & r' & Hb & Hi & H & _)]].
      + discriminate H.
      + exists request. eexists. rewrite <- H. auto.
      + exists r. eexists. auto.
    - rewrite Map_get_set_other by exact Hkb. exact Hpre. }
  destruct (EditChannelRequest.items request) as [| details [| second rest]]
    eqn:Hi; simpl.
  - destruct (string_dec (EditChannelRequest.channelID request) b)
      as [-> | Hkb].
    + rewrite Map_get_delete_same. left. reflexivity.
    + rewrite Map_get_delete_other by exact Hkb. exact Hpre.
  - apply Hset. discriminate.
  - apply Hset. discriminate.
Qed.

Lemma drain_pass_after_drain (now : Z) (b : string)
    (before : option EditChannelRequest.t) (keys : list string) :
  forall s,
    after_drain before (Map_get b (editChannelNameTopicQueue s)) ->
    after_drain before
      (Map_get b
         (editChannelNameTopicQueue (fold_left (drain_request now) keys s))).
Proof.
  induction keys as [| key keys IH]; intros s Hpre; simpl; [exact Hpre |].
  apply IH. apply drain_request_after_drain. exact Hpre.
Qed.

Lemma processEditChannelQueue_after_drain (now : Z) (b : string)
    (before : option EditChannelRequest.t) (s : State) :
  after_drain before (Map_get b (editChannelNameTopicQueue s)) ->
  after_drain before
    (Map_get b (editChannelNameTopicQueue (processEditChannelQueue now s))).
Proof.
  intros Hpre. rewrite processEditChannelQueue_queue.
  destruct (editChannelProcessing s); [| exact Hpre].
  apply drain_pass_after_drain. exact Hpre.
Qed.

(** What a call settles to is read off the capability, the options and the
    record of its own channel. *)
Lemma editChannel_outcome (now : Z) (ch : string)
    (o : ChannelEditOptions.t) (reason : option string) (s : State) :
  fst (edit now ch o reason s)
  = if negb (botHasChannelPermissions ch [Permissions "MANAGE_CHANNELS"])
    then Thrown MISSING_MANAGE_CHANNELS
    else if touches_name_or_topic o
            && past_burst (Map_get ch (editChannelNameTopicQueue s))
    then Deferred
    else Forwarded (mkPatch ch (payload o reason)).
Proof.
  unfold editChannel, past_burst.
  destruct (negb _); [reflexivity |].
  destruct (touches_name_or_topic o); [| reflexivity].
  destruct (Map_get ch (editChannelNameTopicQueue s)) as [r |];
    [| reflexivity].
  destruct (EditChannelRequest.amount r =? 1); [reflexivity |].
  simpl. destruct (editChannelProcessing s); reflexivity.
Qed.

(** An edit of [a] changes the record of another channel through the drain
    pass only. *)
Lemma editChannel_after_drain (now : Z) (a b : string)
    (o : ChannelEditOptions.t) (reason : option string) (s : State) :
  a <> b ->
  after_drain (Map_get b (editChannelNameTopicQueue s))
    (Map_get b (editChannelNameTopicQueue (snd (edit now a o reason s)))).
Proof.
  intros Hne.
  assert (Hsame : forall q, after_drain q q) by (intros q; right; left; auto).
  unfold editChannel.
  destruct (negb _); [apply Hsame |].
  destruct (touches_name_or_topic o); [| apply Hsame].
  destruct (Map_get a (editChannelNameTopicQueue s)) as [r |]; simpl.
  - destruct (EditChannelRequest.amount r =? 1); simpl.
    + rewrite Map_get_set_other by exact Hne. apply Hsame.
    + destruct (editChannelProcessing s); simpl.
      * rewrite Map_get_set_other by exact Hne. apply Hsame.
      * apply processEditChannelQueue_after_drain. simpl.
        rewrite Map_get_set_other by exact Hne. apply Hsame.
  - rewrite Map_get_set_other by exact Hne. apply Hsame.
Qed.

(** C6, as amended. For distinct channels [a] and [b]: an edit of [a] that
    is not deferred, or that is deferred while the drain cycle is running,
    leaves the record of [b] as it was; an edit of [a] that is deferred while
    the cycle is not running queues the edit, sets the flag and runs
    [processEditChannelQueue] on the whole map; what an edit of [b] settles
    to is the same in any two states that hold the same record for [b]; and
    an edit of [b] that would not be deferred before an edit of [a] is not
    deferred after it, provided the record of [b], when at count 1, has
    nothing queued. *)
Theorem edits_of_another_channel
    (a b : string) (now : Z) (o : ChannelEditOptions.t)
    (reason : option string) (s : State) :
  a <> b ->
  let result := edit now a o reason s in
  ((fst result <> Deferred \/ editChannelProcessing s = true) ->
   Map_get b (editChannelNameTopicQueue (snd result))
   = Map_get b (editChannelNameTopicQueue s))
  /\
  (fst result = Deferred -> editChannelProcessing s = false ->
   exists r,
     Map_get a (editChannelNameTopicQueue s) = Some r /\
     snd result
     = processEditChannelQueue now
         (with_processing true
            (with_queue
               (Map_set a
                  (EditChannelRequest.set_items
                     (EditChannelRequest.items r ++ [mkQueued a o]) r)
                  (editChannelNameTopicQueue s))
               s)))
  /\
  (forall now' o' reason' s1 s2,
     Map_get b (editChannelNameTopicQueue s1)
     = Map_get b (editChannelNameTopicQueue s2) ->
     fst (edit now' b o' reason' s1) = fst (edit now' b o' reason' s2))
  /\
  (forall now' o' reason',
     (forall r,
        Map_get b (editChannelNameTopicQueue s) = Some r ->
        EditChannelRequest.amount r = 1 -> EditChannelRequest.items r = []) ->
     fst (edit now' b o' reason' s) <> Deferred ->
     fst (edit now' b o' reason' (snd result)) <> Deferred).
Proof.
  intros Hne result. split; [| split; [| split]].
  - intros Hcase. subst result. revert Hcase. unfold editChannel.
    destruct (negb _); [reflexivity |].
    destruct (touches_name_or_topic o); [| reflexivity].
    destruct (Map_get a (editChannelNameTopicQueue s)) as [r |]; simpl.
    + destruct (EditChannelRequest.amount r =? 1); simpl.
      * intros _. apply Map_get_set_other. exact Hne.
      * destruct (editChannelProcessing s); simpl.
        -- intros _. apply Map_get_set_other. exact Hne.
        -- intros [H | H]; [exfalso; apply H; reflexivity | discriminate H].
    + intros _. apply Map_get_set_other. exact Hne.
  - subst result. unfold editChannel.
    destruct (negb _); [discriminate |].
    destruct (touches_name_or_topic o); [| discriminate].
    destruct (Map_get a (editChannelNameTopicQueue s)) as [r |]; simpl;
      [| discriminate].
    destruct (EditChannelRequest.amount r =? 1); simpl; [discriminate |].
    intros _ Hflag. rewrite Hflag. exists r. split; reflexivity.
  - intros now' o' reason' s1 s2 Heq.
    rewrite !editChannel_outcome, Heq. reflexivity.
  - intros now' o' reason' Hburst.
    pose proof (editChannel_after_drain now a b o reason s Hne) as Hafter.
    fold result in Hafter.
    rewrite !editChannel_outcome.
    destruct (negb _); [discriminate |].
    destruct (touches_name_or_topic o'); simpl; [| discriminate].
    destruct Hafter as [-> | [-> | (r & r' & Hb & Hi & _ & _)]].
    + discriminate.
    + auto.
    + rewrite Hb. simpl.
      destruct (Z.eqb_spec (EditChannelRequest.amount r) 1) as [E | E].
      * exfalso. apply Hi. exact (Hburst r Hb E).
      * simpl. intros H. exfalso. apply H. reflexivity.
Qed.

End QueueFacts.

(** ** The invariants in the reachable states *)

Section ReachableInvariants.

Variable Permissions : string -> Z.

(** In every reachable state the entries of the map are filed under their
    own id and a record at count 1 has nothing queued, whatever the
    capability lookup answered at each call. *)
Lemma reachable_invariant (s : State) :
  reachable Permissions s -> queue_invariant s.
Proof.
  induction 1 as [| has now ch o reason s _ IH | has now s _ IH
                  | now s _ IH].
  - split; [intros k r [] | intros k r; discriminate].
  - apply editChannel_invariant. exact IH.
  - simpl. destruct (resubmitted s) as [| call rest]; [exact IH |].
    apply editChannel_invariant. exact IH.
  - unfold timeout_fires. destruct (timeouts s) as [| t rest]; [exact IH |].
    apply processEditChannelQueue_invariant. exact IH.
Qed.

(** In every reachable state the association list is a map. *)
Lemma reachable_keys_unique (s : State) :
  reachable Permissions s ->
  NoDup (Map_keys (editChannelNameTopicQueue s)).
Proof.
  induction 1 as [| has now ch o reason s _ IH | has now s _ IH
                  | now s _ IH].
  - constructor.
  - apply editChannel_keys_unique. exact IH.
  - simpl. destruct (resubmitted s) as [| call rest]; [exact IH |].
    apply editChannel_keys_unique. exact IH.
  - unfold timeout_fires. destruct (timeouts s) as [| t rest]; [exact IH |].
    apply processEditChannelQueue_keys_unique. exact IH.
Qed.

End ReachableInvariants.

(** ** Aggregation of named permissions *)

Section AggregationFacts.

Variable Permissions : string -> Z.

(** The BigInt reduction sets exactly the bits that some named permission
    sets, at every position. *)
Lemma reduce_BigInt_bits (perms : list string) (n : Z) :
  Z.testbit (reduce_BigInt Permissions perms) n
  = existsb (fun perm => Z.testbit (Permissions perm) n) perms.
Proof.
  unfold reduce_BigInt.
  assert (H : forall acc,
             Z.testbit
               (fold_left (fun bits perm => BigInt_or bits (Permissions perm))
                  perms acc) n
             = Z.testbit acc n
               || existsb (fun perm => Z.testbit (Permissions perm) n) perms).
  { induction perms as [| perm rest IH]; intros acc; simpl.
    - rewrite orb_false_r. reflexivity.
    - rewrite IH. unfold BigInt_or. rewrite Z.lor_spec, orb_assoc.
      reflexivity. }
  rewrite H, Z.bits_0. reflexivity.
Qed.

(** The masks of an overwrite in the payload of [editChannel] are the
    decimal text of the BigInt reductions. *)
Lemma payload_overwrite_masks (overwrite : Overwrite.t) :
  PermissionOverwrite.allow (payload_overwrite Permissions overwrite)
  = BigInt_toString (reduce_BigInt Permissions (Overwrite.allow overwrite))
  /\ PermissionOverwrite.deny (payload_overwrite Permissions overwrite)
     = BigInt_toString (reduce_BigInt Permissions (Overwrite.deny overwrite)).
Proof.
  split; reflexivity.
Qed.

Lemma ToInt32_small (z : Z) : - 2 ^ 31 <= z < 2 ^ 31 -> ToInt32 z = z.
Proof.
  intros H. unfold ToInt32. rewrite Z.mod_small; lia.
Qed.

Lemma lor_below_pow2 (a b n : Z) :
  0 < n -> 0 <= a < 2 ^ n -> 0 <= b < 2 ^ n -> 0 <= Z.lor a b < 2 ^ n.
Proof.
  intros Hn Ha Hb.
  assert (Hnn : 0 <= Z.lor a b) by (apply Z.lor_nonneg; lia).
  split; [exact Hnn |].
  destruct (Z.eq_dec (Z.lor a b) 0) as [E | E]; [rewrite E; lia |].
  apply Z.log2_lt_pow2; [lia |].
  rewrite Z.log2_lor by lia.
  assert (Hlog : forall x, 0 <= x < 2 ^ n -> Z.log2 x < n).
  { intros x Hx. destruct (Z.eq_dec x 0) as [-> | Hx0]; [simpl; lia |].
    apply Z.log2_lt_pow2; lia. }
  apply Z.max_lub_lt; apply Hlog; assumption.
Qed.

(** On permissions whose values all lie below 2^31 the reduction on numbers
    agrees with the one on BigInts. *)
Lemma reduce_number_small (perms : list string) :
  (forall perm, In perm perms -> 0 <= Permissions perm < 2 ^ 31) ->
  reduce_number Permissions perms = reduce_BigInt Permissions perms.
Proof.
  unfold reduce_number, reduce_BigInt.
  assert (H : forall acc,
             0 <= acc < 2 ^ 31 ->
             (forall perm, In perm perms -> 0 <= Permissions perm < 2 ^ 31) ->
             fold_left
               (fun subtotal perm => number_or subtotal (Permissions perm))
               perms acc
             = fold_left
                 (fun bits perm => BigInt_or bits (Permissions perm))
                 perms acc).
  { induction perms as [| perm rest IH]; intros acc Hacc Hall; simpl;
      [reflexivity |].
    assert (Hp : 0 <= Permissions perm < 2 ^ 31) by (apply Hall; left; auto).
    unfold number_or at 2, BigInt_or at 2.
    rewrite !ToInt32_small by lia.
    apply IH.
    - apply lor_below_pow2; lia.
    - intros p Hin. apply Hall. right. exact Hin. }
  intros Hall. apply H; [lia | exact Hall].
Qed.

End AggregationFacts.

(** ** The sample runs, evaluated *)

Lemma sample_renames_reachable (channelID : string)
    (edits : list (Z * string)) :
  forall s,
    reachable sample_Permissions s ->
    reachable sample_Permissions (sample_renames channelID edits s).
Proof.
  induction edits as [| [now name] edits IH]; intros s Hs; simpl;
    [exact Hs |].
  apply IH. apply reachable_edit. exact Hs.
Qed.

(** The sample runs end in states the module can be in. *)
Lemma sample_runs_reachable :
  reachable sample_Permissions backlog_of_three
  /\ reachable sample_Permissions stale_and_fresh
  /\ reachable sample_Permissions two_channels.
Proof.
  unfold backlog_of_three, drain_started, stale_and_fresh, two_channels.
  repeat split;
    repeat (apply sample_renames_reachable || apply reachable_resume);
    apply reachable_initial.
Qed.

(** C6, as stated, fails: after two renames of A and one of B, the third
    rename of A is deferred and starts the drain cycle, whose first pass
    deletes the record of B. *)
Lemma edit_of_A_deletes_record_of_B :
  Map_get "B" (editChannelNameTopicQueue two_channels)
  = Some (EditChannelRequest.mk 1 600300 "B" [])
  /\ editChannelProcessing two_channels = false
  /\ fst (sample_edit 400 "A" (rename "a3") None two_channels) = Deferred
  /\ Map_get "B"
       (editChannelNameTopicQueue
          (snd (sample_edit 400 "A" (rename "a3") None two_channels)))
     = None.
Proof.
  repeat split.
Qed.

(** C3, evaluated. The record of c is at count 2 with expiry 600500 and
    holds three edits; the timer of the drain cycle is armed for 600300. The
    tick at 600300 takes the first two edits out of the queue and calls
    [editChannel] on them; both calls find count 0 and queue their edit
    again, behind the third: nothing reaches the transport. A tick after
    the expiry, at 600501, skips the record. *)
Theorem drain_tick_requeues
    (on_time :=
       sample_resume [600300; 600300] (timeout_fires 600300 backlog_of_three))
    (late :=
       sample_resume [600501; 600501] (timeout_fires 600501 backlog_of_three)) :
  (Map_get "c" (editChannelNameTopicQueue backlog_of_three)
   = Some (EditChannelRequest.mk 2 600500 "c"
             [mkQueued "c" (rename "n3"); mkQueued "c" (rename "n4");
              mkQueued "c" (rename "n5")])
   /\ editChannelProcessing backlog_of_three = true
   /\ timeouts backlog_of_three = [600300])
  /\
  (patched on_time = patched backlog_of_three
   /\ resubmitted on_time = []
   /\ Map_get "c" (editChannelNameTopicQueue on_time)
      = Some (EditChannelRequest.mk 0 600500 "c"
                [mkQueued "c" (rename "n5"); mkQueued "c" (rename "n3");
                 mkQueued "c" (rename "n4")]))
  /\
  (patched late = patched backlog_of_three
   /\ resubmitted late = []
   /\ editChannelNameTopicQueue late
      = editChannelNameTopicQueue backlog_of_three).
Proof.
  repeat split.
Qed.

(** C4, evaluated. At the tick of 1300200 the record of c has an empty
    queue and a window that ended at 600100, the record of d holds one edit
    and ended at 1300100, the record of e holds one edit and ends at
    1300400. The tick skips the records of c and d, so the record with the
    empty queue and the elapsed window stays in the map; it takes the edit of
    e out of the queue and calls [editChannel] on it, which finds count 0 and
    queues it again: the edit does not reach the transport and the record of
    e stays. *)
Theorem drain_tick_keeps_elapsed_records
    (tick := sample_resume [1300200] (timeout_fires 1300200 stale_and_fresh)) :
  (editChannelNameTopicQueue stale_and_fresh
   = [("c", EditChannelRequest.mk 1 600100 "c" []);
      ("d", EditChannelRequest.mk 0 1300100 "d" [mkQueued "d" (rename "d3")]);
      ("e", EditChannelRequest.mk 2 1300400 "e" [mkQueued "e" (rename "e3")])]
   /\ editChannelProcessing stale_and_fresh = true
   /\ timeouts stale_and_fresh = [1300200])
  /\
  (editChannelNameTopicQueue tick
   = [("c", EditChannelRequest.mk 1 600100 "c" []);
      ("d", EditChannelRequest.mk 0 1300100 "d" [mkQueued "d" (rename "d3")]);
      ("e", EditChannelRequest.mk 0 1300400 "e" [mkQueued "e" (rename "e3")])]
   /\ patched tick = patched stale_and_fresh
   /\ resubmitted tick = []).
Proof.
  repeat split.
Qed.

(** C8, evaluated. [createGuildRole] reduces with the bitwise or of numbers:
    a permission at bit 32 is dropped from the mask it posts, and one at
    bit 31 turns the mask negative, where the BigInt reduction of the same
    names keeps both. *)
Theorem createGuildRole_truncates :
  createGuildRole_permissions sample_Permissions
    (Some ["MANAGE_CHANNELS"; "REQUEST_TO_SPEAK"]) = Some 16
  /\ reduce_BigInt sample_Permissions ["MANAGE_CHANNELS"; "REQUEST_TO_SPEAK"]
     = 4294967312
  /\ createGuildRole_permissions sample_Permissions
       (Some ["MANAGE_ROLES"; "USE_SLASH_COMMANDS"]) = Some (-1879048192)
  /\ reduce_BigInt sample_Permissions ["MANAGE_ROLES"; "USE_SLASH_COMMANDS"]
     = 2415919104.
Proof.
  repeat split.
Qed.

(** ** The theorems at sample inputs *)

(** The member's entry allows bits 4 and 10 and denies bit 4: a requirement
    of both bits is refused. *)
Lemma channelOverwriteHasPermission_spec_witness :
  channelOverwriteHasPermission "guild" "member"
    [RawOverwrite.mk "guild" 0 1024 0; RawOverwrite.mk "member" 1 1040 16]
    (map permission_bit [4%N; 10%N]) = false.
Proof.
  apply (proj2 (proj2 (channelOverwriteHasPermission_spec "guild" "member"
                         [RawOverwrite.mk "guild" 0 1024 0;
                          RawOverwrite.mk "member" 1 1040 16]
                         [4%N; 10%N]))
           (RawOverwrite.mk "member" 1 1040 16) 4%N).
  - left. exists [RawOverwrite.mk "guild" 0 1024 0], [].
    split; [reflexivity |]. split; [reflexivity |].
    intros x [<- | []]. discriminate.
  - left. reflexivity.
  - reflexivity.
Defined.

(** Three renames of channel c from the initial state: once the suspended
    call has run, the third rename is in the queue. *)
Lemma three_rapid_edits_witness :
  may_manage sample_Permissions always_permitted "c"
  /\ Map_get "c" (editChannelNameTopicQueue initial_state) = None
  /\ queued_for "c" (mkQueued "c" (rename "n3"))
       (sample_resume [100]
          (snd (sample_edit 100 "c" (rename "n3") None
                  (snd (sample_edit 100 "c" (rename "n2") None
                          (snd (sample_edit 100 "c" (rename "n1") None
                                  initial_state))))))).
Proof.
  split; [reflexivity |]. split; [reflexivity |].
  assert (Hfiled : filed_under_own_id (editChannelNameTopicQueue initial_state))
    by (intros k r []).
  pose proof (three_rapid_edits sample_Permissions always_permitted "c"
                (rename "n1") (rename "n2") (rename "n3") None None None
                100 100 100 [100] initial_state
                eq_refl eq_refl eq_refl eq_refl Hfiled eq_refl) as H.
  destruct H as (_ & _ & _ & _ & _ & H).
  apply H. simpl. lia.
Defined.

(** A bot without the capability renames channel c while three edits of c
    are queued. *)
Lemma editChannel_missing_permission_witness :
  never_permitted "c" [sample_Permissions "MANAGE_CHANNELS"] = false
  /\ editChannel sample_Permissions never_permitted 900 "c" (rename "n6")
       None backlog_of_three
     = (Thrown MISSING_MANAGE_CHANNELS, backlog_of_three).
Proof.
  split; [reflexivity |].
  apply (editChannel_missing_permission sample_Permissions never_permitted
           900 "c" (rename "n6") None backlog_of_three).
  reflexivity.
Defined.

(** At the state reached by two renames of A and one of B, where both hold
    a record: a second rename of B is forwarded and leaves the record of A,
    at count 2, as it was; and a rename of B, forwarded before the third
    rename of A, is forwarded after it, although that rename starts the
    drain cycle and the pass takes the record of B out of the map. *)
Lemma edits_of_another_channel_witness :
  (Map_get "A" (editChannelNameTopicQueue two_channels)
   = Some (EditChannelRequest.mk 2 600200 "A" [])
   /\ Map_get "B" (editChannelNameTopicQueue two_channels)
      = Some (EditChannelRequest.mk 1 600300 "B" []))
  /\ Map_get "A"
       (editChannelNameTopicQueue
          (snd (sample_edit 400 "B" (rename "b2") None two_channels)))
     = Map_get "A" (editChannelNameTopicQueue two_channels)
  /\ fst (sample_edit 500 "B" (rename "b2") None
            (snd (sample_edit 400 "A" (rename "a3") None two_channels)))
     <> Deferred.
Proof.
  split; [split; reflexivity |]. split.
  - assert (Hne : "B" <> "A") by discriminate.
    apply (proj1 (edits_of_another_channel sample_Permissions
                    always_permitted "B" "A" 400 (rename "b2") None
                    two_channels Hne)).
    left. discriminate.
  - assert (Hne : "A" <> "B") by discriminate.
    apply (proj2 (proj2 (proj2
             (edits_of_another_channel sample_Permissions always_permitted
                "A" "B" 400 (rename "a3") None two_channels Hne)))).
    + intros r Hr _. vm_compute in Hr. injection Hr as <-. reflexivity.
    + discriminate.
Defined.

(** A change of the slow mode alone, while three edits of the same channel
    are queued. *)
Lemma editChannel_other_fields_witness :
  fst (sample_edit 900 "c"
         (ChannelEditOptions.mk None None (Some 5) None None None)
         None backlog_of_three)
  = Forwarded
      (mkPatch "c"
         (editChannel_payload sample_Permissions
            (ChannelEditOptions.mk None None (Some 5) None None None) None)).
Proof.
  apply (editChannel_other_fields sample_Permissions always_permitted
           900 "c" (ChannelEditOptions.mk None None (Some 5) None None None)
           None backlog_of_three eq_refl eq_refl eq_refl).
Defined.

(** An empty name, after two renames have put the record at count 2. *)
Lemma editChannel_empty_name_or_topic_witness :
  Map_get "A" (editChannelNameTopicQueue two_channels)
  = Some (EditChannelRequest.mk 2 600200 "A" [])
  /\ fst (sample_edit 400 "A" (rename "") None two_channels)
     = Forwarded
         (mkPatch "A" (editChannel_payload sample_Permissions (rename "") None)).
Proof.
  split; [reflexivity |].
  apply (editChannel_empty_name_or_topic sample_Permissions always_permitted
           400 "A" (rename "") None two_channels eq_refl
           (or_introl eq_refl) (or_intror eq_refl) (or_introl eq_refl)).
Defined.

(** ** More invariants of the reachable states *)

Section ReachableFacts.

Variable Permissions : string -> Z.
Variable botHasChannelPermissions : string -> list Z -> bool.

Local Abbreviation edit :=
  (editChannel Permissions botHasChannelPermissions).
Local Abbreviation payload := (editChannel_payload Permissions).

(** *** What a drain pass leaves alone *)

Lemma drain_request_rest (now : Z) (key : string) (s : State) :
  editChannelProcessing (drain_request now s key) = editChannelProcessing s /\
  timeouts (drain_request now s key) = timeouts s /\
  patched (drain_request now s key) = patched s.
Proof.
  unfold drain_request.
  destruct (Map_get key (editChannelNameTopicQueue s)) as [request |];
    [| auto].
  destruct (now >? EditChannelRequest.timestamp request); [auto |].
  destruct (EditChannelRequest.items request) as [| d1 [| d2 rest]]; auto.
Qed.

Lemma drain_pass_rest (now : Z) (keys : list string) :
  forall s,
    editChannelProcessing (fold_left (drain_request now) keys s)
    = editChannelProcessing s /\
    timeouts (fold_left (drain_request now) keys s) = timeouts s /\
    patched (fold_left (drain_request now) keys s) = patched s.
Proof.
  induction keys as [| key keys IH]; intros s; simpl; [auto |].
  destruct (IH (drain_request now s key)) as (H1 & H2 & H3).
  destruct (drain_request_rest now key s) as (H4 & H5 & H6).
  repeat split; congruence.
Qed.

(** A pass of a running cycle either leaves records and arms one more timer,
    or leaves no record and clears the flag; it hands nothing to the
    transport. *)
Lemma processEditChannelQueue_outcome (now : Z) (s : State) :
  editChannelProcessing s = true ->
  let s' := processEditChannelQueue now s in
  patched s' = patched s /\
  ((editChannelProcessing s' = true /\
    timeouts s' = timeouts s ++ [now + window] /\
    editChannelNameTopicQueue s' <> [])
   \/
   (editChannelProcessing s' = false /\
    timeouts s' = timeouts s /\
    editChannelNameTopicQueue s' = [])).
Proof.
  intros Hflag. unfold processEditChannelQueue. rewrite Hflag. simpl.
  destruct (drain_pass_rest now (Map_keys (editChannelNameTopicQueue s)) s)
    as (Hf & Ht & Hp).
  destruct (editChannelNameTopicQueue
              (fold_left (drain_request now)
                 (Map_keys (editChannelNameTopicQueue s)) s)) eqn:E; simpl.
  - split; [exact Hp |]. right. rewrite Ht, E. auto.
  - split; [exact Hp |]. left. rewrite Hf, Ht, E. repeat split; auto.
    discriminate.
Qed.

Lemma processEditChannelQueue_patched (now : Z) (s : State) :
  patched (processEditChannelQueue now s) = patched s.
Proof.
  destruct (editChannelProcessing s) eqn:Hflag.
  - apply (processEditChannelQueue_outcome now s Hflag).
  - unfold processEditChannelQueue. rewrite Hflag. reflexivity.
Qed.

Lemma Map_set_nonempty (k : string) (r : EditChannelRequest.t)
    (q : list (string * EditChannelRequest.t)) :
  Map_set k r q <> [].
Proof.
  destruct q as [| [k' r'] rest]; simpl; [discriminate |].
  destruct (k' =? k)%string; discriminate.
Qed.

(** *** One timer *)

Lemma processEditChannelQueue_one_timer (now : Z) (s : State) :
  editChannelProcessing s = true ->
  timeouts s = [] ->
  one_timer (processEditChannelQueue now s).
Proof.
  intros Hflag Htim.
  destruct (processEditChannelQueue_outcome now s Hflag)
    as (_ & [(Hf & Ht & Hq) | (Hf & Ht & Hq)]);
    unfold one_timer; rewrite Hf, Ht, Htim; simpl; auto.
Qed.

Lemma editChannel_one_timer (now : Z) (ch : string)
    (o : ChannelEditOptions.t) (reason : option string) (s : State) :
  one_timer s -> one_timer (snd (edit now ch o reason s)).
Proof.
  intros Hinv. unfold editChannel.
  destruct (negb _); [exact Hinv |].
  destruct (touches_name_or_topic o); [| exact Hinv].
  assert (Hset : forall r,
             one_timer
               (with_queue (Map_set ch r (editChannelNameTopicQueue s)) s)).
  { intros r. unfold one_timer in *. simpl.
    destruct (editChannelProcessing s); [| exact Hinv].
    split; [apply Hinv | apply Map_set_nonempty]. }
  destruct (Map_get ch (editChannelNameTopicQueue s)) as [r |]; simpl;
    [| apply Hset].
  destruct (EditChannelRequest.amount r =? 1); simpl; [apply Hset |].
  destruct (editChannelProcessing s) eqn:Hflag; simpl; [apply Hset |].
  apply processEditChannelQueue_one_timer; [reflexivity |].
  unfold one_timer in Hinv. rewrite Hflag in Hinv. exact Hinv.
Qed.

Lemma timeout_fires_one_timer (now : Z) (s : State) :
  one_timer s -> one_timer (timeout_fires now s).
Proof.
  intros Hinv. unfold timeout_fires.
  destruct (timeouts s) as [| t rest] eqn:Htim; [exact Hinv |].
  unfold one_timer in Hinv. rewrite Htim in Hinv.
  destruct (editChannelProcessing s) eqn:Hflag; [| discriminate Hinv].
  destruct Hinv as [Hlen _].
  destruct rest; [| discriminate Hlen].
  apply processEditChannelQueue_one_timer; [exact Hflag | reflexivity].
Qed.

(** *** Counts and queues *)

Lemma drain_request_discipline (now : Z) (key : string) (s : State) :
  editChannelProcessing s = true ->
  record_discipline s -> record_discipline (drain_request now s key).
Proof.
  intros Hflag Hs. pose proof Hs as (Hc & Hi & Hq1 & Hq2).
  unfold drain_request.
  destruct (Map_get key (editChannelNameTopicQueue s)) as [request |] eqn:Hg;
    [| exact Hs].
  pose proof (Map_get_In _ _ _ Hg) as Hin.
  destruct (now >? EditChannelRequest.timestamp request); [exact Hs |].
  assert (Hset : forall rest extra,
             (forall e, In e rest -> In e (EditChannelRequest.items request)) ->
             (forall e, In e extra -> In e (EditChannelRequest.items request)) ->
             record_discipline
               (with_resubmitted (resubmitted s ++ extra)
                  (with_queue
                     (Map_set key
                        (EditChannelRequest.set_items rest
                           (EditChannelRequest.set_amount 0 request))
                        (editChannelNameTopicQueue s))
                     s))).
  { intros rest extra Hrest Hextra.
    split; [| split; [| split]]; simpl.
    - intros k r H.
      destruct (Map_set_In _ _ _ _ _ H) as [H' | [_ ->]];
        [exact (Hc k r H') | left; reflexivity].
    - intros Hf. simpl in Hf. congruence.
    - intros k r e H He.
      destruct (Map_set_In _ _ _ _ _ H) as [H' | [-> ->]];
        [exact (Hq1 k r e H' He) |].
      simpl in He. exact (Hq1 _ _ e Hin (Hrest e He)).
    - intros e He. apply in_app_or in He.
      destruct He as [He | He]; [exact (Hq2 e He) |].
      exact (proj2 (Hq1 _ _ e Hin (Hextra e He))). }
  destruct (EditChannelRequest.items request) as [| d1 [| d2 rest]] eqn:Hit.
  - split; [| split; [| split]]; simpl.
    + intros k r H. exact (Hc k r (Map_delete_In _ _ _ _ H)).
    + intros Hf. simpl in Hf. congruence.
    + intros k r e H He. exact (Hq1 k r e (Map_delete_In _ _ _ _ H) He).
    + exact Hq2.
  - apply (Hset [] [d1]); [intros e [] | intros e He; exact He].
  - apply (Hset rest [d1; d2]).
    + intros e He. right. right. exact He.
    + intros e [<- | [<- | []]]; [left | right; left]; reflexivity.
Qed.

Lemma drain_pass_discipline (now : Z) (keys : list string) :
  forall s,
    editChannelProcessing s = true ->
    record_discipline s ->
    record_discipline (fold_left (drain_request now) keys s).
Proof.
  induction keys as [| key keys IH]; intros s Hflag Hs; simpl; [exact Hs |].
  apply IH.
  - rewrite (proj1 (drain_request_rest now key s)). exact Hflag.
  - apply drain_request_discipline; assumption.
Qed.

Lemma processEditChannelQueue_discipline (now : Z) (s : State) :
  record_discipline s -> record_discipline (processEditChannelQueue now s).
Proof.
  intros Hs. unfold processEditChannelQueue.
  destruct (editChannelProcessing s) eqn:Hflag; simpl; [| exact Hs].
  pose proof (drain_pass_discipline now
                (Map_keys (editChannelNameTopicQueue s)) s Hflag Hs) as H.
  destruct H as (Hc & _ & Hq1 & Hq2).
  pose proof (proj1 (drain_pass_rest now
                       (Map_keys (editChannelNameTopicQueue s)) s)) as Hf.
  destruct (editChannelNameTopicQueue
              (fold_left (drain_request now)
                 (Map_keys (editChannelNameTopicQueue s)) s)) eqn:E.
  - unfold record_discipline, counts_in_range, idle_records,
      queued_edits_filed.
    simpl. rewrite E.
    split; [| split; [| split]].
    + intros k r [].
    + intros _ k r [].
    + intros k r e [].
    + exact Hq2.
  - unfold record_discipline, counts_in_range, idle_records,
      queued_edits_filed in *.
    simpl. rewrite E in *.
    split; [| split; [| split]].
    + exact Hc.
    + rewrite Hf, Hflag. discriminate.
    + exact Hq1.
    + exact Hq2.
Qed.

Lemma editChannel_discipline (now : Z) (ch : string)
    (o : ChannelEditOptions.t) (reason : option string) (s : State) :
  record_discipline s -> record_discipline (snd (edit now ch o reason s)).
Proof.
  intros Hs. pose proof Hs as (Hc & Hi & Hq1 & Hq2). unfold editChannel.
  destruct (negb _); [exact Hs |].
  destruct (touches_name_or_topic o) eqn:Ht; [| exact Hs].
  assert (Hset : forall flag r',
             (EditChannelRequest.amount r' = 0
              \/ EditChannelRequest.amount r' = 1
              \/ EditChannelRequest.amount r' = 2) ->
             (flag = false ->
              editChannelProcessing s = false /\
              EditChannelRequest.items r' = [] /\
              (EditChannelRequest.amount r' = 1
               \/ EditChannelRequest.amount r' = 2)) ->
             (forall e,
                In e (EditChannelRequest.items r') ->
                queued_channelID e = ch /\
                touches_name_or_topic (queued_options e) = true) ->
             record_discipline
               (with_processing flag
                  (with_queue (Map_set ch r' (editChannelNameTopicQueue s))
                     s))).
  { intros flag r' Ha Hidle Hitems.
    split; [| split; [| split]]; simpl.
    - intros k r H.
      destruct (Map_set_In _ _ _ _ _ H) as [H' | [_ ->]];
        [exact (Hc k r H') | exact Ha].
    - intros Hf k r H. simpl in Hf. destruct (Hidle Hf) as (Hf' & Hit & Ham).
      destruct (Map_set_In _ _ _ _ _ H) as [H' | [_ ->]];
        [exact (Hi Hf' k r H') | auto].
    - intros k r e H He.
      destruct (Map_set_In _ _ _ _ _ H) as [H' | [-> ->]];
        [exact (Hq1 k r e H' He) | exact (Hitems e He)].
    - exact Hq2. }
  assert (Hsame : forall r',
             with_queue (Map_set ch r' (editChannelNameTopicQueue s)) s
             = with_processing (editChannelProcessing s)
                 (with_queue (Map_set ch r' (editChannelNameTopicQueue s)) s))
    by reflexivity.
  destruct (Map_get ch (editChannelNameTopicQueue s)) as [r |] eqn:Hg; simpl.
  2: { rewrite Hsame. apply Hset; simpl; auto. intros e []. }
  pose proof (Map_get_In _ _ _ Hg) as Hin.
  assert (Hpush : forall e,
            In e (EditChannelRequest.items r ++ [mkQueued ch o]) ->
            queued_channelID e = ch /\
            touches_name_or_topic (queued_options e) = true).
  { intros e He. apply in_app_or in He.
    destruct He as [He | [<- | []]];
      [exact (Hq1 ch r e Hin He) | split; [reflexivity | exact Ht]]. }
  destruct (Z.eqb_spec (EditChannelRequest.amount r) 1) as [E | E]; simpl.
  - rewrite Hsame. apply Hset; simpl; auto.
    + intros Hf. split; [exact Hf |]. split; [| auto].
      exact (proj1 (Hi Hf ch r Hin)).
    + intros e He. exact (Hq1 ch r e Hin He).
  - destruct (editChannelProcessing s) eqn:Hflag; simpl.
    + rewrite Hsame. apply Hset; simpl.
      * exact (Hc ch r Hin).
      * discriminate.
      * exact Hpush.
    + apply processEditChannelQueue_discipline.
      apply Hset; simpl.
      * exact (Hc ch r Hin).
      * discriminate.
      * exact Hpush.
Qed.

(** *** What one call hands to the transport *)

(** X5. A call of [editChannel] hands the transport one request, its own,
    when it settles to it, and none otherwise, the drain pass it may start
    included. *)
Theorem editChannel_hands_over_its_own_request
    (now : Z) (channelID : string) (options : ChannelEditOptions.t)
    (reason : option string) (s : State) :
  let result := edit now channelID options reason s in
  match fst result with
  | Forwarded r =>
      r = mkPatch channelID (payload options reason) /\
      patched (snd result) = patched s ++ [r]
  | Thrown _ | Deferred => patched (snd result) = patched s
  end.
Proof.
  unfold editChannel.
  destruct (negb _); [reflexivity |].
  destruct (touches_name_or_topic options); [| split; reflexivity].
  destruct (Map_get channelID (editChannelNameTopicQueue s)) as [r |]; simpl;
    [| split; reflexivity].
  destruct (EditChannelRequest.amount r =? 1); simpl; [split; reflexivity |].
  destruct (editChannelProcessing s); simpl; [reflexivity |].
  rewrite processEditChannelQueue_patched. reflexivity.
Qed.

End ReachableFacts.

(** ** The reachable states *)

(** The capability lookup is quantified per step in [reachable]; the step
    lemmas above hold for any answers, so the invariants go through. *)

Section ReachableStates.

Variable Permissions : string -> Z.

Local Abbreviation reachable_state := (reachable Permissions).

Lemma resume_each_backlogged (c : string)
    (calls : list ((string -> list Z -> bool) * Z)) :
  forall s,
    backlogged c s ->
    let s' := resume_each Permissions calls s in
    backlogged c s' /\
    throttled_edits_of c (patched s') = throttled_edits_of c (patched s) /\
    timeouts s' = timeouts s /\
    (forall e, queued_for c e s -> queued_for c e s') /\
    ((forall call, In call calls -> may_manage Permissions (fst call) c) ->
     (List.length (resubmitted s) <= List.length calls)%nat ->
     resubmitted s' = [] /\
     forall o,
       touches_name_or_topic o = true ->
       In (mkQueued c o) (resubmitted s) ->
       queued_for c (mkQueued c o) s').
Proof.
  induction calls as [| [has now] calls IH]; intros s Hb; simpl.
  - split; [exact Hb |]. split; [reflexivity |]. split; [reflexivity |].
    split; [auto |]. intros _ Hlen.
    destruct (resubmitted s); [| simpl in Hlen; lia].
    split; [reflexivity | intros o _ []].
  - destruct (resubmitted s) as [| call rest] eqn:Hr.
    + split; [exact Hb |]. split; [reflexivity |]. split; [reflexivity |].
      split; [auto |]. intros _ _. split; [exact Hr | intros o _ []].
    + set (s0 := with_resubmitted rest s).
      assert (Hb0 : backlogged c s0) by exact Hb.
      destruct (edit_backlogged Permissions has c now (queued_channelID call)
                  (queued_options call) None s0 Hb0)
        as (Hb1 & Hlog1 & Hres1 & Htim1 & Hmono1 & Hnew1).
      destruct (IH _ Hb1) as (Hb2 & Hlog2 & Htim2 & Hmono2 & Hdone2).
      split; [exact Hb2 |].
      split; [rewrite Hlog2, Hlog1; reflexivity |].
      split; [rewrite Htim2, Htim1; reflexivity |].
      split; [intros e He; apply Hmono2, Hmono1; exact He |].
      intros Hauth Hlen. simpl in Hlen.
      assert (Hauth' : forall call',
                 In call' calls -> may_manage Permissions (fst call') c).
      { intros call' Hin. apply Hauth. right. exact Hin. }
      assert (Hlen1 : (List.length
                         (resubmitted
                            (snd (editChannel Permissions has now
                                    (queued_channelID call)
                                    (queued_options call) None s0)))
                       <= List.length calls)%nat).
      { rewrite Hres1. simpl. lia. }
      destruct (Hdone2 Hauth' Hlen1) as [Hnil Hback].
      split; [exact Hnil |].
      intros o Ht [E | Hin].
      * apply Hmono2. subst call. simpl in Hnew1. apply Hnew1; auto.
        exact (Hauth (has, now) (or_introl eq_refl)).
      * apply Hback; auto. rewrite Hres1. exact Hin.
Qed.

Lemma reachable_one_timer_holds (s : State) :
  reachable_state s -> one_timer s.
Proof.
  induction 1 as [| has now ch o reason s _ IH | has now s _ IH
                  | now s _ IH].
  - reflexivity.
  - apply editChannel_one_timer. exact IH.
  - simpl. destruct (resubmitted s) as [| call rest]; [exact IH |].
    apply editChannel_one_timer. exact IH.
  - apply timeout_fires_one_timer. exact IH.
Qed.

Lemma reachable_discipline (s : State) :
  reachable_state s -> record_discipline s.
Proof.
  induction 1 as [| has now ch o reason s _ IH | has now s _ IH
                  | now s _ IH].
  - split; [| split; [| split]]; simpl.
    + intros k r [].
    + intros _ k r [].
    + intros k r e [].
    + intros e [].
  - apply editChannel_discipline. exact IH.
  - simpl. destruct (resubmitted s) as [| call rest] eqn:Hr; [exact IH |].
    apply editChannel_discipline.
    destruct IH as (Hc & Hi & Hq1 & Hq2).
    split; [exact Hc |]. split; [exact Hi |]. split; [exact Hq1 |].
    intros e He. apply Hq2. rewrite Hr. right. exact He.
  - unfold timeout_fires. destruct (timeouts s) as [| t rest]; [exact IH |].
    apply processEditChannelQueue_discipline. exact IH.
Qed.

(** *** The invariants, as they hold in every reachable state *)







End ReachableStates.

(** *** At the sample runs *)

(** A run in which the capability lookup changes its answer is a run of the
    module. *)
Lemma refused_resubmission_reachable :
  reachable sample_Permissions refused_resubmission.
Proof.
  unfold refused_resubmission.
  apply reachable_resume, sample_renames_reachable, reachable_initial.
Qed.







(** ** More on the aggregation of named permissions *)

Section MoreAggregationFacts.

Variable Permissions : string -> Z.

Lemma ToInt32_range (z : Z) : - 2 ^ 31 <= ToInt32 z < 2 ^ 31.
Proof.
  unfold ToInt32.
  pose proof (Z.mod_pos_bound (z + 2 ^ 31) (2 ^ 32) ltac:(lia)). lia.
Qed.

Lemma ToInt32_mod (z : Z) : ToInt32 z mod 2 ^ 32 = z mod 2 ^ 32.
Proof.
  unfold ToInt32. rewrite Zminus_mod_idemp_l. f_equal. lia.
Qed.

(** A signed 32-bit integer repeats its bit 31 above it. *)
Lemma sign_extension (x n : Z) :
  - 2 ^ 31 <= x < 2 ^ 31 -> 31 <= n -> Z.testbit x n = Z.testbit x 31.
Proof.
  intros Hx Hn.
  assert (Hhigh : forall m, 31 <= m ->
            Z.testbit x m = if x <? 0 then true else false).
  { intros m Hm. destruct (Z.ltb_spec x 0) as [Hneg | Hpos].
    - apply Z.bits_above_log2_neg; [exact Hneg |].
      destruct (Z.eq_dec (Z.pred (- x)) 0) as [E | E];
        [rewrite E; simpl; lia |].
      assert (Z.log2 (Z.pred (- x)) < 31) by (apply Z.log2_lt_pow2; lia).
      lia.
    - apply Z.bits_above_log2; [exact Hpos |].
      destruct (Z.eq_dec x 0) as [E | E]; [rewrite E; simpl; lia |].
      assert (Z.log2 x < 31) by (apply Z.log2_lt_pow2; lia).
      lia. }
  rewrite (Hhigh n Hn), (Hhigh 31) by lia. reflexivity.
Qed.

(** The bits of the conversion: those of the argument up to bit 31, and bit
    31 again above. *)
Lemma ToInt32_bits (z n : Z) :
  0 <= n -> Z.testbit (ToInt32 z) n = Z.testbit z (Z.min n 31).
Proof.
  intros Hn.
  assert (Hlow : forall m, 0 <= m < 32 ->
            Z.testbit (ToInt32 z) m = Z.testbit z m).
  { intros m Hm.
    rewrite <- (Z.mod_pow2_bits_low (ToInt32 z) 32 m) by lia.
    rewrite ToInt32_mod. apply Z.mod_pow2_bits_low. lia. }
  destruct (Z.le_gt_cases n 31) as [Hle | Hgt].
  - rewrite Z.min_l by lia. apply Hlow. lia.
  - rewrite Z.min_r by lia.
    rewrite (sign_extension (ToInt32 z) n (ToInt32_range z)) by lia.
    apply Hlow. lia.
Qed.

Lemma ToInt32_idempotent (z : Z) : ToInt32 (ToInt32 z) = ToInt32 z.
Proof.
  apply ToInt32_small. pose proof (ToInt32_range z). lia.
Qed.

(** The or of numbers is the or of the integers, converted. *)
Lemma number_or_ToInt32 (a b : Z) : number_or a b = ToInt32 (Z.lor a b).
Proof.
  unfold number_or. apply Z.bits_inj'. intros n Hn.
  rewrite Z.lor_spec, !ToInt32_bits, Z.lor_spec by exact Hn. reflexivity.
Qed.

(** X9. The mask [createGuildRole] posts is the or of the named values
    converted to a signed 32-bit integer: it lies between -2^31 and 2^31 - 1,
    and its bits 0 to 31 are the bits some named permission sets. *)
Theorem createGuildRole_mask (perms : list string) :
  reduce_number Permissions perms = ToInt32 (reduce_BigInt Permissions perms)
  /\ - 2 ^ 31 <= reduce_number Permissions perms < 2 ^ 31
  /\ forall n, 0 <= n < 32 ->
       Z.testbit (reduce_number Permissions perms) n
       = existsb (fun perm => Z.testbit (Permissions perm) n) perms.
Proof.
  assert (Heq : reduce_number Permissions perms
                = ToInt32 (reduce_BigInt Permissions perms)).
  { unfold reduce_number, reduce_BigInt.
    assert (H : forall acc acc',
               acc = ToInt32 acc' ->
               fold_left
                 (fun subtotal perm => number_or subtotal (Permissions perm))
                 perms acc
               = ToInt32
                   (fold_left
                      (fun bits perm => BigInt_or bits (Permissions perm))
                      perms acc')).
    { induction perms as [| perm rest IH]; intros acc acc' Hacc; simpl;
        [exact Hacc |].
      apply IH. subst acc. unfold BigInt_or.
      rewrite <- number_or_ToInt32. unfold number_or.
      rewrite ToInt32_idempotent. reflexivity. }
    apply H. reflexivity. }
  split; [exact Heq |]. split.
  - rewrite Heq. apply ToInt32_range.
  - intros n Hn. rewrite Heq, ToInt32_bits by lia.
    rewrite Z.min_l by lia. apply reduce_BigInt_bits.
Qed.

(** X8. The mask [editChannel] and [createGuildChannel] build from an array
    of permission names has, at every position, the bit that some named
    permission sets; it depends on which names occur, not on their order or
    on repetitions. *)
Theorem named_permissions_mask (perms : list string) :
  (forall n,
     Z.testbit (reduce_BigInt Permissions perms) n
     = existsb (fun perm => Z.testbit (Permissions perm) n) perms)
  /\ (forall perms',
        (forall perm, In perm perms <-> In perm perms') ->
        reduce_BigInt Permissions perms = reduce_BigInt Permissions perms').
Proof.
  split; [apply reduce_BigInt_bits |].
  intros perms' Hsame. apply Z.bits_inj. intros n.
  rewrite !reduce_BigInt_bits.
  apply eq_true_iff_eq. rewrite !existsb_exists.
  split; intros (perm & Hin & Hbit); exists perm;
    (split; [apply Hsame; exact Hin | exact Hbit]).
Qed.

Lemma decimal_value_toString (z : Z) :
  decimal_value (BigInt_toString z) = Some z.
Proof.
  unfold decimal_value, BigInt_toString.
  rewrite NilZero.isi.
  - simpl. rewrite DecimalZ.of_to. reflexivity.
  - destruct z; simpl; try discriminate.
    intros [= E]. exact (Unsigned.to_uint_nonnil _ E).
  - destruct z; simpl; try discriminate.
    intros [= E]. exact (Unsigned.to_uint_nonnil _ E).
Qed.

(** X10. The allow and deny texts of an overwrite in the payload of
    [editChannel] read back, as decimal numbers, to the or of the named
    values; so two overwrites get the same text only for the same mask. *)
Theorem payload_overwrite_texts (overwrite overwrite' : Overwrite.t) :
  decimal_value
    (PermissionOverwrite.allow (payload_overwrite Permissions overwrite))
  = Some (reduce_BigInt Permissions (Overwrite.allow overwrite))
  /\ decimal_value
       (PermissionOverwrite.deny (payload_overwrite Permissions overwrite))
     = Some (reduce_BigInt Permissions (Overwrite.deny overwrite))
  /\ (PermissionOverwrite.allow (payload_overwrite Permissions overwrite)
      = PermissionOverwrite.allow (payload_overwrite Permissions overwrite')
      -> reduce_BigInt Permissions (Overwrite.allow overwrite)
         = reduce_BigInt Permissions (Overwrite.allow overwrite')).
Proof.
  split; [apply decimal_value_toString |].
  split; [apply decimal_value_toString |].
  simpl. intros E.
  pose proof (decimal_value_toString
                (reduce_BigInt Permissions (Overwrite.allow overwrite))) as H.
  rewrite E, decimal_value_toString in H. congruence.
Qed.

End MoreAggregationFacts.

(** ** More on the resolver *)

Lemma nonzero_has_bit (x : Z) :
  x <> 0 -> exists n, 0 <= n /\ Z.testbit x n = true.
Proof.
  intros Hx. destruct (Z.lt_trichotomy x 0) as [Hneg | [E | Hpos]].
  - exists (Z.succ (Z.log2 (Z.pred (- x)))). split.
    + pose proof (Z.log2_nonneg (Z.pred (- x))). lia.
    + apply Z.bits_above_log2_neg; lia.
  - contradiction.
  - exists (Z.log2 x). split; [apply Z.log2_nonneg |].
    apply Z.bit_log2. exact Hpos.
Qed.

Lemma land_truthy (m perm : Z) :
  truthy_int (Z.land m perm) = true
  <-> exists n, 0 <= n /\ Z.testbit perm n = true /\ Z.testbit m n = true.
Proof.
  unfold truthy_int. rewrite negb_true_iff, Z.eqb_neq. split.
  - intros Hne. destruct (nonzero_has_bit _ Hne) as (n & Hn & Hbit).
    rewrite Z.land_spec in Hbit. apply andb_true_iff in Hbit.
    exists n. tauto.
  - intros (n & Hn & Hp & Hm) E.
    assert (Hbit : Z.testbit (Z.land m perm) n = true)
      by (rewrite Z.land_spec, Hp, Hm; reflexivity).
    rewrite E, Z.bits_0 in Hbit. discriminate.
Qed.

Lemma land_falsy (m perm : Z) :
  truthy_int (Z.land m perm) = false
  <-> forall n, 0 <= n -> Z.testbit perm n = true -> Z.testbit m n = false.
Proof.
  split.
  - intros Hf n Hn Hp. destruct (Z.testbit m n) eqn:Hm; [| reflexivity].
    assert (Ht : truthy_int (Z.land m perm) = true)
      by (apply land_truthy; exists n; auto).
    congruence.
  - intros Hall. destruct (truthy_int (Z.land m perm)) eqn:Ht; [| reflexivity].
    apply land_truthy in Ht. destruct Ht as (n & Hn & Hp & Hm).
    rewrite (Hall n Hn Hp) in Hm. discriminate.
Qed.

(** X11. For permission values of any shape the resolver answers true
    exactly when, for every required value, the matched entry denies none of
    its bits and allows at least one of them: a value of several bits passes
    on one allowed bit, and the value 0 never passes. *)
Theorem channelOverwriteHasPermission_values
    (guildID id : string) (overwrites : list RawOverwrite.t)
    (permissions : list Z) :
  (channelOverwriteHasPermission guildID id overwrites permissions = true
   <-> forall perm, In perm permissions ->
         exists o,
           matched_entry guildID id overwrites o /\
           (forall n, 0 <= n -> Z.testbit perm n = true ->
                      Z.testbit (RawOverwrite.deny o) n = false) /\
           (exists n, 0 <= n /\ Z.testbit perm n = true /\
                      Z.testbit (RawOverwrite.allow o) n = true))
  /\ (In 0 permissions ->
      channelOverwriteHasPermission guildID id overwrites permissions
      = false).
Proof.
  assert (Hiff :
            channelOverwriteHasPermission guildID id overwrites permissions
            = true
            <-> forall perm, In perm permissions ->
                  exists o,
                    matched_entry guildID id overwrites o /\
                    (forall n, 0 <= n -> Z.testbit perm n = true ->
                               Z.testbit (RawOverwrite.deny o) n = false) /\
                    (exists n, 0 <= n /\ Z.testbit perm n = true /\
                               Z.testbit (RawOverwrite.allow o) n = true)).
  { unfold channelOverwriteHasPermission. rewrite forallb_forall.
    split; intros H perm Hin; specialize (H perm Hin).
    - unfold overwrite_grants in H.
      destruct (find_overwrite guildID id overwrites) as [o |] eqn:Hf;
        [| discriminate H].
      destruct (truthy_int (Z.land (RawOverwrite.deny o) perm)) eqn:Hd;
        [discriminate H |].
      destruct (truthy_int (Z.land (RawOverwrite.allow o) perm)) eqn:Ha;
        [| discriminate H].
      exists o. split; [apply find_overwrite_matched; exact Hf |].
      split; [apply land_falsy; exact Hd | apply land_truthy; exact Ha].
    - destruct H as (o & Hm & Hd & Ha).
      apply find_overwrite_matched in Hm. unfold overwrite_grants.
      rewrite Hm, (proj2 (land_falsy _ _) Hd), (proj2 (land_truthy _ _) Ha).
      reflexivity. }
  split; [exact Hiff |].
  intros Hzero. apply not_true_is_false. intros Ht.
  destruct (proj1 Hiff Ht 0 Hzero) as (o & _ & _ & n & _ & Hbit & _).
  rewrite Z.bits_0 in Hbit. discriminate.
Qed.

(** X12. Requiring less never turns a yes into a no: when the resolver
    answers true for a list of permissions it answers true for every list
    drawn from it, in any order and with any repetition. *)
Theorem channelOverwriteHasPermission_monotone
    (guildID id : string) (overwrites : list RawOverwrite.t)
    (permissions fewer : list Z) :
  incl fewer permissions ->
  channelOverwriteHasPermission guildID id overwrites permissions = true ->
  channelOverwriteHasPermission guildID id overwrites fewer = true.
Proof.
  unfold channelOverwriteHasPermission. rewrite !forallb_forall.
  intros Hincl H perm Hin. apply H, Hincl, Hin.
Qed.

(** X13. The entry that decides is the first one for the principal, and
    nothing else: entries after it and the root id do not matter; and when
    no entry is for the principal the answer is the one for the root id as
    principal. *)
Theorem channelOverwriteHasPermission_lookup
    (guildID id : string) (permissions : list Z) :
  (forall before o after,
     RawOverwrite.id o = id ->
     (forall x, In x before -> RawOverwrite.id x <> id) ->
     channelOverwriteHasPermission guildID id (before ++ o :: after)
       permissions
     = forallb (overwrite_grants (Some o)) permissions)
  /\ (forall overwrites,
        (forall x, In x overwrites -> RawOverwrite.id x <> id) ->
        channelOverwriteHasPermission guildID id overwrites permissions
        = channelOverwriteHasPermission guildID guildID overwrites
            permissions).
Proof.
  split.
  - intros before o after Hid Hbefore. unfold channelOverwriteHasPermission.
    assert (Hf : find_overwrite guildID id (before ++ o :: after) = Some o).
    { apply find_overwrite_matched. left. exists before, after. auto. }
    rewrite Hf. reflexivity.
  - intros overwrites Hnone. unfold channelOverwriteHasPermission.
    f_equal. f_equal. unfold find_overwrite.
    rewrite (proj2 (find_none_id id overwrites) Hnone). simpl.
    destruct (find (fun perm => (RawOverwrite.id perm =? guildID)%string)
                overwrites); reflexivity.
Qed.

(** A composite value, bits 4 and 10, against an entry that allows only bit
    10; and the same requirement with less. *)
Lemma channelOverwriteHasPermission_monotone_witness :
  channelOverwriteHasPermission "guild" "member"
    [RawOverwrite.mk "member" 1 1024 0] [1024] = true.
Proof.
  apply (channelOverwriteHasPermission_monotone "guild" "member"
           [RawOverwrite.mk "member" 1 1024 0] [1040; 1024] [1024]).
  - intros x [<- | []]. right. left. reflexivity.
  - reflexivity.
Defined.

(** ** The other handlers *)

Section OtherHandlersFacts.

Variable Permissions : string -> Z.
Variable botHasChannelPermissions : string -> list Z -> bool.
Variable botHasPermission : string -> list Z -> bool.

(** X14. [deleteMessages] posts only for a bot that may manage messages and
    for at least two ids; it then posts the first 100 ids, in order, so
    between 2 and 100 of them, takes exactly those out of the caller's array,
    and logs the warning exactly when more than 100 were given. When it
    rejects, the caller's array is as it was. *)
Theorem deleteMessages_contract
    (channelID : string) (ids : list string) (reason : option string) :
  let permitted :=
    botHasChannelPermissions channelID [Permissions "MANAGE_MESSAGES"] in
  match deleteMessages Permissions botHasChannelPermissions channelID ids
          reason with
  | (Resolves body, remaining, warned) =>
      permitted = true /\
      bulk_channelID body = channelID /\
      bulk_reason body = reason /\
      bulk_messages body = firstn 100 ids /\
      (2 <= List.length (bulk_messages body) <= 100)%nat /\
      bulk_messages body ++ remaining = ids /\
      (warned = true <-> (100 < List.length ids)%nat)
  | (Rejects e, remaining, warned) =>
      remaining = ids /\
      warned = false /\
      ((e = MISSING_MANAGE_MESSAGES /\ permitted = false)
       \/ (e = DELETE_MESSAGES_MIN /\ permitted = true /\
           (List.length ids < 2)%nat))
  end.
Proof.
  intros permitted. subst permitted. unfold deleteMessages.
  destruct (botHasChannelPermissions channelID
              [Permissions "MANAGE_MESSAGES"]); cbn [negb].
  2: { split; [reflexivity |]. split; [reflexivity |]. left. auto. }
  destruct (Nat.ltb_spec (List.length ids) 2) as [Hlt | Hge].
  - split; [reflexivity |]. split; [reflexivity |]. right. auto.
  - cbn [bulk_channelID bulk_reason bulk_messages].
    split; [reflexivity |]. split; [reflexivity |].
    split; [reflexivity |]. split; [reflexivity |].
    split; [rewrite length_firstn; lia |].
    split; [apply firstn_skipn |].
    apply Nat.ltb_lt.
Qed.

(** X15. The limit [getAuditLogs] sends lies between 1 and 100: it is the
    caller's limit when that lies between 1 and 100, and 50 when the caller
    gives none or one outside that range. *)
Theorem getAuditLogs_limit
    (guildID : string) (options : GetAuditLogsOptions.t) :
  match getAuditLogs Permissions botHasPermission guildID options with
  | Resolves query =>
      botHasPermission guildID [Permissions "VIEW_AUDIT_LOG"] = true /\
      audit_guildID query = guildID /\
      audit_options query = options /\
      1 <= audit_limit query <= 100 /\
      match GetAuditLogsOptions.limit options with
      | Some l =>
          (1 <= l <= 100 -> audit_limit query = l) /\
          (l < 1 \/ 100 < l -> audit_limit query = 50)
      | None => audit_limit query = 50
      end
  | Rejects e =>
      e = MISSING_VIEW_AUDIT_LOG /\
      botHasPermission guildID [Permissions "VIEW_AUDIT_LOG"] = false
  end.
Proof.
  unfold getAuditLogs.
  destruct (botHasPermission guildID [Permissions "VIEW_AUDIT_LOG"]); simpl;
    [| auto].
  split; [reflexivity |]. split; [reflexivity |]. split; [reflexivity |].
  unfold audit_log_limit, truthy_int.
  destruct (GetAuditLogsOptions.limit options) as [l |]; [| lia].
  destruct (Z.eqb_spec l 0), (Z.geb_spec l 1), (Z.leb_spec l 100); simpl; lia.
Qed.

(** X16. [createGuildTemplate] posts exactly for a bot that may manage the
    guild, a name of 1 to 100 code units and a description, if any, of at
    most 120. [editGuildTemplate] patches exactly for such a bot, a name, if
    any, of at most 100 code units (the empty name included) and such a
    description: whatever the first accepts the second accepts. *)
Theorem template_validation
    (guildID templateCode : string) (name : JSString)
    (description : option JSString) :
  let permitted := botHasPermission guildID [Permissions "MANAGE_GUILD"] in
  let short_description :=
    match description with
    | Some d => (List.length d <= 120)%nat
    | None => True
    end in
  (createGuildTemplate Permissions botHasPermission guildID
     (CreateGuildTemplate.mk name description)
   = Resolves (guildID, CreateGuildTemplate.mk name description)
   <-> permitted = true /\ (1 <= List.length name <= 100)%nat
       /\ short_description)
  /\
  (forall name',
     editGuildTemplate Permissions botHasPermission guildID templateCode
       (EditGuildTemplate.mk name' description)
     = Resolves (guildID, templateCode,
                 EditGuildTemplate.mk name' description)
     <-> permitted = true
         /\ match name' with
            | Some n => (List.length n <= 100)%nat
            | None => True
            end
         /\ short_description)
  /\
  (createGuildTemplate Permissions botHasPermission guildID
     (CreateGuildTemplate.mk name description)
   = Resolves (guildID, CreateGuildTemplate.mk name description) ->
   editGuildTemplate Permissions botHasPermission guildID templateCode
     (EditGuildTemplate.mk (Some name) description)
   = Resolves (guildID, templateCode,
               EditGuildTemplate.mk (Some name) description)).
Proof.
  intros permitted short_description.
  assert (Hdesc :
            (truthy_length description
             && (120 <? match description with
                        | Some d => List.length d
                        | None => 0
                        end)%nat) = false
            <-> short_description).
  { subst short_description. destruct description as [[| u d] |]; simpl.
    - split; [lia | reflexivity].
    - destruct (Nat.ltb_spec 120 (S (List.length d))) as [Hlong | Hlong];
        split; try discriminate; try reflexivity; lia.
    - split; reflexivity || auto. }
  assert (Hcreate :
            createGuildTemplate Permissions botHasPermission guildID
              (CreateGuildTemplate.mk name description)
            = Resolves (guildID, CreateGuildTemplate.mk name description)
            <-> permitted = true /\ (1 <= List.length name <= 100)%nat
                /\ short_description).
  { unfold createGuildTemplate. subst permitted. simpl.
    destruct (botHasPermission guildID [Permissions "MANAGE_GUILD"]); simpl;
      [| split; [discriminate | intros [H _]; discriminate H]].
    destruct (Nat.ltb_spec (List.length name) 1) as [Hlow | Hlow],
             (Nat.ltb_spec 100 (List.length name)) as [Hhigh | Hhigh]; simpl;
      try (split; [discriminate | intros (_ & Hn & _); lia]).
    destruct (truthy_length description
              && (120 <? match description with
                         | Some d => List.length d
                         | None => 0
                         end)%nat) eqn:E.
    - split; [discriminate |]. intros (_ & _ & H).
      apply Hdesc in H. discriminate H.
    - split; [intros _ | reflexivity].
      split; [reflexivity |]. split; [lia | apply Hdesc; reflexivity]. }
  assert (Hedit :
            forall name',
              editGuildTemplate Permissions botHasPermission guildID
                templateCode (EditGuildTemplate.mk name' description)
              = Resolves (guildID, templateCode,
                          EditGuildTemplate.mk name' description)
              <-> permitted = true
                  /\ match name' with
                     | Some n => (List.length n <= 100)%nat
                     | None => True
                     end
                  /\ short_description).
  { intros name'. unfold editGuildTemplate. subst permitted. simpl.
    destruct (botHasPermission guildID [Permissions "MANAGE_GUILD"]); simpl;
      [| split; [discriminate | intros [H _]; discriminate H]].
    assert (Hname :
              (truthy_length name'
               && ((match name' with
                    | Some n => List.length n
                    | None => 0%nat
                    end <? 1)%nat
                   || (100 <? match name' with
                              | Some n => List.length n
                              | None => 0%nat
                              end)%nat)) = false
              <-> match name' with
                  | Some n => (List.length n <= 100)%nat
                  | None => True
                  end).
    { destruct name' as [[| u n] |]; simpl.
      - split; [lia | reflexivity].
      - destruct (Nat.ltb_spec 100 (S (List.length n))) as [Hlong | Hlong];
          split; try discriminate; try reflexivity; lia.
      - split; reflexivity || auto. }
    destruct (truthy_length name' && _) eqn:En.
    - split; [discriminate |]. intros (_ & H & _).
      apply Hname in H. discriminate H.
    - destruct (truthy_length description
                && (120 <? match description with
                           | Some d => List.length d
                           | None => 0
                           end)%nat) eqn:E.
      + split; [discriminate |]. intros (_ & _ & H).
        apply Hdesc in H. discriminate H.
      + split; [intros _ | reflexivity].
        split; [reflexivity |].
        split; [apply Hname; reflexivity | apply Hdesc; reflexivity]. }
  split; [exact Hcreate |]. split; [exact Hedit |].
  intros Hc. apply Hcreate in Hc. destruct Hc as (Hp & Hn & Hd).
  apply Hedit. split; [exact Hp |]. split; [lia | exact Hd].
Qed.

(** *** sendMessage *)

Lemma filter_all {A : Type} (f : A -> bool) (l : list A) :
  (forall x, In x l -> f x = true) -> filter f l = l.
Proof.
  induction l as [| a l IH]; intros H; simpl; [reflexivity |].
  rewrite (H a (or_introl eq_refl)), IH; [reflexivity |].
  intros x Hx. apply H. right. exact Hx.
Qed.

Lemma filter_twice {A : Type} (f g : A -> bool) (l : list A) :
  filter f (filter g l) = filter (fun x => g x && f x) l.
Proof.
  induction l as [| a l IH]; simpl; [reflexivity |].
  destruct (g a); simpl; [destruct (f a); simpl; rewrite IH |];
    auto.
Qed.

Lemma without_not_included (x : string) (l : list string) :
  includes x l = false -> without x l = l.
Proof.
  intros H. apply filter_all. intros y Hy.
  apply negb_true_iff. destruct (String.eqb_spec y x) as [-> | ]; auto.
  assert (includes x l = true); [| congruence].
  unfold includes. apply existsb_exists. exists x.
  split; [exact Hy | apply String.eqb_refl].
Qed.

(** One trimming block in closed form. *)
Lemma trim_block (kind : string) (listed : option (list string))
    (parse : option (list string)) :
  (if truthy_length listed then
     match parse with
     | Some p => if includes kind p then Some (without kind p) else parse
     | None => parse
     end
   else parse)
  = option_map
      (filter (fun p => negb (truthy_length listed && (p =? kind)%string)))
      parse.
Proof.
  destruct (truthy_length listed); simpl.
  - destruct parse as [p |]; [| reflexivity]. simpl.
    destruct (includes kind p) eqn:E; [reflexivity |].
    rewrite <- (without_not_included kind p E) at 1. reflexivity.
  - destruct parse as [p |]; [| reflexivity]. simpl.
    rewrite filter_all; auto.
Qed.

Lemma firstn_100_short (l : list string) :
  (if (100 <? List.length l)%nat then firstn 100 l else l) = firstn 100 l.
Proof.
  destruct (Nat.ltb_spec 100 (List.length l)); [reflexivity |].
  symmetry. apply firstn_all2. lia.
Qed.

Lemma trim_users_eq (m : Mentions.t) :
  trim_users m
  = Mentions.mk
      (option_map
         (filter
            (fun p =>
               negb (truthy_length (Mentions.users m)
                     && (p =? "users")%string)))
         (Mentions.parse m))
      (option_map (firstn 100) (Mentions.users m))
      (Mentions.roles m) (Mentions.repliedUser m).
Proof.
  rewrite <- trim_block. destruct m as [parse users roles replied].
  unfold trim_users. cbn [Mentions.users Mentions.parse Mentions.roles
                          Mentions.repliedUser].
  destruct users as [[| u us] |]; cbn [truthy_length option_map];
    [reflexivity | | reflexivity].
  rewrite <- (firstn_100_short (u :: us)).
  destruct parse as [p |]; [destruct (includes "users" p) |];
    cbn [Mentions.users Mentions.set_parse Mentions.set_users Mentions.parse
         Mentions.roles Mentions.repliedUser];
    destruct (100 <? List.length (u :: us))%nat; reflexivity.
Qed.

Lemma trim_roles_eq (m : Mentions.t) :
  trim_roles m
  = Mentions.mk
      (option_map
         (filter
            (fun p =>
               negb (truthy_length (Mentions.roles m)
                     && (p =? "roles")%string)))
         (Mentions.parse m))
      (Mentions.users m)
      (option_map (firstn 100) (Mentions.roles m))
      (Mentions.repliedUser m).
Proof.
  rewrite <- trim_block. destruct m as [parse users roles replied].
  unfold trim_roles. cbn [Mentions.users Mentions.parse Mentions.roles
                          Mentions.repliedUser].
  destruct roles as [[| u us] |]; cbn [truthy_length option_map];
    [reflexivity | | reflexivity].
  rewrite <- (firstn_100_short (u :: us)).
  destruct parse as [p |]; [destruct (includes "roles" p) |];
    cbn [Mentions.users Mentions.set_parse Mentions.set_roles Mentions.parse
         Mentions.roles Mentions.repliedUser];
    destruct (100 <? List.length (u :: us))%nat; reflexivity.
Qed.

(** The two blocks, one after the other. *)
Lemma trim_eq (m : Mentions.t) :
  trim_roles (trim_users m)
  = Mentions.mk
      (option_map
         (filter
            (fun p =>
               negb (truthy_length (Mentions.users m)
                     && (p =? "users")%string)
               && negb (truthy_length (Mentions.roles m)
                        && (p =? "roles")%string)))
         (Mentions.parse m))
      (option_map (firstn 100) (Mentions.users m))
      (option_map (firstn 100) (Mentions.roles m))
      (Mentions.repliedUser m).
Proof.
  rewrite trim_roles_eq, trim_users_eq.
  cbn [Mentions.users Mentions.parse Mentions.roles Mentions.repliedUser].
  f_equal. destruct (Mentions.parse m) as [p |]; [| reflexivity].
  cbn [option_map]. rewrite filter_twice. reflexivity.
Qed.

Lemma trim_trimmed (m : Mentions.t) :
  mentions_trimmed m (trim_roles (trim_users m)).
Proof.
  rewrite trim_eq. unfold mentions_trimmed.
  cbn [Mentions.users Mentions.parse Mentions.roles Mentions.repliedUser].
  split; [reflexivity |]. split; [reflexivity |]. split; [reflexivity |].
  destruct (Mentions.parse m) as [p |]; cbn [option_map]; [| exact I].
  intros x. rewrite filter_In, andb_true_iff, !negb_true_iff.
  rewrite !andb_false_iff.
  split.
  - intros (Hin & Hu & Hr). split; [exact Hin |]. split; intros ->.
    + destruct Hu as [Hu | Hu]; [exact Hu | discriminate Hu].
    + destruct Hr as [Hr | Hr]; [exact Hr | discriminate Hr].
  - intros (Hin & Hu & Hr). split; [exact Hin |]. split.
    + destruct (String.eqb_spec x "users") as [E | E]; [left | right]; auto.
    + destruct (String.eqb_spec x "roles") as [E | E]; [left | right]; auto.
Qed.

Lemma spread_length_bounds (n : nat) :
  forall s : JSString,
    (List.length s <= n)%nat ->
    (spread_length s <= List.length s <= 2 * spread_length s)%nat.
Proof.
  induction n as [| n IH]; intros s Hlen.
  - destruct s; [simpl; lia | simpl in Hlen; lia].
  - destruct s as [| u [| v rest]]; [simpl; lia | simpl; lia |].
    simpl in Hlen.
    assert (H1 : (List.length (v :: rest) <= n)%nat) by (simpl; lia).
    assert (H2 : (List.length rest <= n)%nat) by lia.
    pose proof (IH _ H1) as B1. pose proof (IH _ H2) as B2.
    change (spread_length (u :: v :: rest))
      with (if is_high_surrogate u && is_low_surrogate v
            then S (spread_length rest)
            else S (spread_length (v :: rest))).
    destruct (is_high_surrogate u && is_low_surrogate v);
      simpl List.length in *; lia.
Qed.

Ltac case_guard :=
  match goal with
  | |- context [if ?c then _ else _] => destruct c eqn:?
  end.

(** X17. The body [sendMessage] posts carries the caller's mentions
    trimmed: at most 100 user ids and at most 100 role ids, the first ones in
    the caller's order, and no "users" or "roles" in [parse] when ids of that
    kind are listed; [allowed_mentions] is that object with [replied_user],
    and the caller's own object is left in that state. A call that rejects
    leaves the caller's mentions untouched or trimmed in the same way. *)
Theorem sendMessage_mentions
    {Embed : Type} (cached_channel : string -> option Channel.t)
    (channelID : string) (content : MessageContent.t Embed) :
  match sendMessage Permissions botHasChannelPermissions cached_channel
          channelID (inr content) with
  | (Resolves (endpoint, body), after) =>
      endpoint = channelID /\
      MessageContent.mentions (MessagePayload.content body) = after /\
      match MessageContent.mentions content with
      | Some m0 =>
          exists m,
            after = Some m /\
            mentions_trimmed m0 m /\
            match Mentions.users m with
            | Some users => (List.length users <= 100)%nat
            | None => True
            end /\
            match Mentions.roles m with
            | Some roles => (List.length roles <= 100)%nat
            | None => True
            end /\
            MessagePayload.allowed_mentions body = Some (m, replied_user m)
      | None => after = None /\ MessagePayload.allowed_mentions body = None
      end
  | (Rejects e, after) =>
      after = MessageContent.mentions content \/
      exists m0 m,
        MessageContent.mentions content = Some m0 /\
        after = Some m /\ mentions_trimmed m0 m
  end.
Proof.
  assert (Hlate :
            option_map (fun m => trim_roles (trim_users m))
              (MessageContent.mentions content)
            = MessageContent.mentions content \/
            exists m0 m,
              MessageContent.mentions content = Some m0 /\
              option_map (fun m => trim_roles (trim_users m))
                (MessageContent.mentions content) = Some m /\
              mentions_trimmed m0 m).
  { destruct (MessageContent.mentions content) as [m0 |];
      [right | left; reflexivity].
    exists m0, (trim_roles (trim_users m0)).
    split; [reflexivity |]. split; [reflexivity | apply trim_trimmed]. }
  unfold sendMessage.
  repeat case_guard; try (left; reflexivity);
    try exact Hlate.
  destruct (cached_channel channelID) as [channel |];
    [| exact Hlate].
  destruct (Channel.type channel);
    try exact Hlate.
  all: split; [reflexivity |]; split; [reflexivity |].
  all: destruct (MessageContent.mentions content) as [m0 |];
    cbn [option_map]; [| split; reflexivity].
  all: exists (trim_roles (trim_users m0)).
  all: split; [reflexivity |]; split; [apply trim_trimmed |].
  all: rewrite trim_eq;
    cbn [Mentions.users Mentions.parse Mentions.roles Mentions.repliedUser].
  all: split;
    [destruct (Mentions.users m0); cbn [option_map];
       [rewrite length_firstn; lia | exact I] |].
  all: split;
    [destruct (Mentions.roles m0); cbn [option_map];
       [rewrite length_firstn; lia | exact I] |].
  all: reflexivity.
Qed.

(** X18. [sendMessage] measures the content in code points, as the string
    iterator counts them: it rejects for length only a content of more than
    2000 code points, so never one of at most 2000 code units, and a content
    it posts has at most 2000 code points and at most 4000 code units. *)
Theorem sendMessage_length
    {Embed : Type} (cached_channel : string -> option Channel.t)
    (channelID : string) (content : JSString + MessageContent.t Embed) :
  let text :=
    match content with
    | inl t => Some t
    | inr c => MessageContent.content c
    end in
  let result :=
    fst (sendMessage Permissions botHasChannelPermissions cached_channel
           channelID content) in
  (result = Rejects MESSAGE_MAX_LENGTH ->
   exists t,
     text = Some t /\
     (2000 < spread_length t)%nat /\ (2000 < List.length t)%nat)
  /\
  (forall request,
     result = Resolves request ->
     forall t,
       text = Some t ->
       (spread_length t <= 2000)%nat /\ (List.length t <= 4000)%nat).
Proof.
  intros text result.
  set (c := match content with
            | inl t => MessageContent.mk (Some t) false None None None
            | inr c => c
            end).
  assert (Htext : text = MessageContent.content c)
    by (subst text c; destruct content; reflexivity).
  subst result. unfold sendMessage. fold c. rewrite Htext. split.
  - repeat case_guard; cbn [fst]; try discriminate.
    + intros _.
      match goal with
      | H : (truthy_length ?X && _) = true |- _ =>
          destruct X as [[| u t] |]; cbn [truthy_length andb] in H;
            try discriminate H; apply Nat.ltb_lt in H
      end.
      exists (u :: t). split; [reflexivity |]. split; [assumption |].
      pose proof (spread_length_bounds _ (u :: t) (Nat.le_refl _)). lia.
    + destruct (cached_channel channelID) as [channel |]; cbn [fst];
        [| discriminate].
      destruct (Channel.type channel); cbn [fst]; discriminate.
  - intros request. repeat case_guard; cbn [fst]; try discriminate.
    intros _ t Ht.
    match goal with
    | H : (truthy_length _ && _) = false |- _ => rewrite Ht in H
    end.
    destruct t as [| u t]; [simpl; lia |].
    match goal with
    | H : (truthy_length _ && _) = false |- _ =>
        cbn [truthy_length andb] in H; apply Nat.ltb_ge in H
    end.
    split; [assumption |].
    pose proof (spread_length_bounds _ (u :: t) (Nat.le_refl _)). lia.
Qed.

(** X19. Trimming is idempotent: the mentions [sendMessage] leaves behind
    are not changed by a second call. *)
Theorem trim_mentions_idempotent (m : Mentions.t) :
  trim_roles (trim_users (trim_roles (trim_users m)))
  = trim_roles (trim_users m).
Proof.
  rewrite (trim_eq (trim_roles (trim_users m))), (trim_eq m).
  cbn [Mentions.users Mentions.parse Mentions.roles Mentions.repliedUser].
  assert (Htruthy : forall l : option (list string),
            truthy_length (option_map (firstn 100) l) = truthy_length l).
  { intros [[| x l] |]; reflexivity. }
  assert (Hfirst : forall l : option (list string),
            option_map (firstn 100) (option_map (firstn 100) l)
            = option_map (firstn 100) l).
  { intros [l |]; [| reflexivity]. cbn [option_map].
    rewrite firstn_firstn. reflexivity. }
  rewrite !Htruthy, !Hfirst. f_equal.
  destruct (Mentions.parse m) as [p |]; [| reflexivity].
  cbn [option_map]. rewrite filter_twice. f_equal.
  apply filter_ext. intros x.
  destruct (negb _ && negb _); reflexivity.
Qed.

(** *** isChannelSynced *)

Lemma overwrite_synced_true (parent : option (list CachedOverwrite.t))
    (o : CachedOverwrite.t) :
  overwrite_synced parent o = true
  <-> exists inherited p,
        parent = Some inherited /\
        find
          (fun ow => (CachedOverwrite.id ow =? CachedOverwrite.id o)%string)
          inherited = Some p /\
        CachedOverwrite.allow o = CachedOverwrite.allow p /\
        CachedOverwrite.deny o = CachedOverwrite.deny p.
Proof.
  unfold overwrite_synced. destruct parent as [inherited |].
  - destruct (find _ inherited) as [p |] eqn:Hf.
    + destruct (String.eqb_spec (CachedOverwrite.allow o)
                  (CachedOverwrite.allow p)) as [Ea | Ea],
               (String.eqb_spec (CachedOverwrite.deny o)
                  (CachedOverwrite.deny p)) as [Ed | Ed]; simpl;
        split; try discriminate;
        try (intros _; exists inherited, p; auto);
        intros (i' & p' & [= <-] & Hp & Ha & Hd); congruence.
    + split; [discriminate |].
      intros (i' & p' & [= <-] & Hp & _). congruence.
  - split; [discriminate |]. intros (i' & p' & H & _). discriminate H.
Qed.

(** X20. [isChannelSynced] answers true exactly for a cached channel with a
    non-empty parent id whose parent is cached, when each of its overwrites
    has the same allow and deny as the first overwrite of the parent with
    the same id; it answers undefined exactly when such a channel has no
    overwrite list. *)
Theorem isChannelSynced_answers
    (cached_channel : string -> option Channel.t) (channelID : string) :
  (isChannelSynced cached_channel channelID = Some true
   <-> exists channel parentID parent overwrites,
         cached_channel channelID = Some channel /\
         Channel.parentID channel = Some parentID /\
         parentID <> "" /\
         cached_channel parentID = Some parent /\
         Channel.permission_overwrites channel = Some overwrites /\
         forall o, In o overwrites ->
           exists inherited p,
             Channel.permission_overwrites parent = Some inherited /\
             find
               (fun ow =>
                  (CachedOverwrite.id ow =? CachedOverwrite.id o)%string)
               inherited = Some p /\
             CachedOverwrite.allow o = CachedOverwrite.allow p /\
             CachedOverwrite.deny o = CachedOverwrite.deny p)
  /\
  (isChannelSynced cached_channel channelID = None
   <-> exists channel parentID parent,
         cached_channel channelID = Some channel /\
         Channel.parentID channel = Some parentID /\
         parentID <> "" /\
         cached_channel parentID = Some parent /\
         Channel.permission_overwrites channel = None).
Proof.
  unfold isChannelSynced.
  destruct (cached_channel channelID) as [channel |] eqn:Hc.
  2: { split; (split; [discriminate |]);
         [intros (ch & _ & _ & _ & H & _) | intros (ch & _ & _ & H & _)];
         discriminate H. }
  destruct (Channel.parentID channel) as [parentID |] eqn:Hp.
  2: { split; (split; [discriminate |]);
         [intros (ch & pid & _ & _ & [= <-] & H & _)
         | intros (ch & pid & _ & [= <-] & H & _)];
         congruence. }
  unfold truthy_string.
  destruct (String.eqb_spec parentID "") as [-> | Hne]; cbn [negb].
  { split; (split; [discriminate |]);
      [intros (ch & pid & _ & _ & [= <-] & H & Hn & _)
      | intros (ch & pid & _ & [= <-] & H & Hn & _)];
      rewrite Hp in H; injection H as <-; contradiction. }
  destruct (cached_channel parentID) as [parent |] eqn:Hpar.
  2: { split; (split; [discriminate |]);
         [intros (ch & pid & par & _ & [= <-] & H & _ & Hq & _)
         | intros (ch & pid & par & [= <-] & H & _ & Hq & _)];
         rewrite Hp in H; injection H as <-; congruence. }
  destruct (Channel.permission_overwrites channel) as [overwrites |] eqn:Ho;
    cbn [option_map].
  - split.
    + split.
      * intros [= Hall]. rewrite forallb_forall in Hall.
        exists channel, parentID, parent, overwrites.
        repeat (split; [auto; fail |]).
        intros o Hin. apply overwrite_synced_true. exact (Hall o Hin).
      * intros (ch & pid & par & ows & [= <-] & H1 & _ & H2 & H3 & Hall).
        rewrite Hp in H1. injection H1 as <-.
        rewrite Hpar in H2. injection H2 as <-.
        rewrite Ho in H3. injection H3 as <-.
        f_equal. apply forallb_forall. intros o Hin.
        apply overwrite_synced_true. exact (Hall o Hin).
    + split; [discriminate |].
      intros (ch & pid & par & [= <-] & _ & _ & _ & H). congruence.
  - split.
    + split; [discriminate |].
      intros (ch & pid & par & ows & [= <-] & _ & _ & _ & H & _). congruence.
    + split; [intros _ | reflexivity].
      exists channel, parentID, parent. auto.
Qed.

Lemma find_in_front {A : Type} (f : A -> bool) (l extra : list A) (a : A) :
  find f l = Some a -> find f (l ++ extra) = Some a.
Proof.
  induction l as [| x l IH]; simpl; [discriminate |].
  destruct (f x); [auto | exact IH].
Qed.

Lemma find_own_entry (l : list CachedOverwrite.t) (o : CachedOverwrite.t) :
  NoDup (map CachedOverwrite.id l) ->
  In o l ->
  find (fun ow => (CachedOverwrite.id ow =? CachedOverwrite.id o)%string) l
  = Some o.
Proof.
  induction l as [| x l IH]; intros Hnd Hin; [destruct Hin |].
  simpl in Hnd. inversion Hnd as [| ? ? Hx Hnd']; subst. simpl.
  destruct Hin as [-> | Hin].
  - rewrite String.eqb_refl. reflexivity.
  - destruct (String.eqb_spec (CachedOverwrite.id x) (CachedOverwrite.id o))
      as [E | E]; [| apply IH; assumption].
    exfalso. apply Hx. rewrite E. apply in_map. exact Hin.
Qed.

(** X21. The check runs one way: a channel whose overwrites have distinct
    ids is synced with a parent whose list starts with the same overwrites,
    whatever further overwrites the parent holds. *)
Theorem isChannelSynced_one_way
    (cached_channel : string -> option Channel.t) (channelID parentID : string)
    (channel parent : Channel.t)
    (overwrites extra : list CachedOverwrite.t) :
  cached_channel channelID = Some channel ->
  Channel.parentID channel = Some parentID ->
  parentID <> "" ->
  cached_channel parentID = Some parent ->
  Channel.permission_overwrites channel = Some overwrites ->
  NoDup (map CachedOverwrite.id overwrites) ->
  Channel.permission_overwrites parent = Some (overwrites ++ extra) ->
  isChannelSynced cached_channel channelID = Some true.
Proof.
  intros Hc Hp Hne Hpar Ho Hnd Hpo. unfold isChannelSynced.
  rewrite Hc, Hp. unfold truthy_string.
  rewrite (proj2 (String.eqb_neq parentID "") Hne). cbn [negb].
  rewrite Hpar, Ho, Hpo. cbn [option_map]. f_equal.
  apply forallb_forall. intros o Hin. apply overwrite_synced_true.
  exists (overwrites ++ extra), o.
  split; [reflexivity |].
  split; [apply find_in_front, find_own_entry; assumption | auto].
Qed.

(** *** emojiURL *)

Lemma append_cancel_left (a b c : string) :
  (a ++ b = a ++ c)%string -> b = c.
Proof.
  induction a as [| x a IH]; simpl; [auto |].
  intros [= H]. exact (IH H).
Qed.

Lemma append_same_length (a a' b b' : string) :
  String.length a = String.length a' ->
  (a ++ b = a' ++ b')%string -> a = a' /\ b = b'.
Proof.
  revert a'. induction a as [| x a IH]; intros [| x' a'] Hlen; simpl in *;
    try discriminate.
  - auto.
  - intros [= -> H]. destruct (IH a' ltac:(lia) H) as [-> ->]. auto.
Qed.

Lemma append_length (a b : string) :
  String.length (a ++ b) = (String.length a + String.length b)%nat.
Proof.
  induction a as [| x a IH]; simpl; [reflexivity | rewrite IH; reflexivity].
Qed.

(** X22. Two emoji get the same URL only if they have the same id and are
    both animated or both static; an omitted flag counts as static. *)
Theorem emojiURL_injective (id id' : string) (animated animated' : option bool) :
  emojiURL id animated = emojiURL id' animated' ->
  id = id' /\
  match animated with Some b => b | None => false end
  = match animated' with Some b => b | None => false end.
Proof.
  unfold emojiURL.
  set (a := match animated with Some b => b | None => false end).
  set (a' := match animated' with Some b => b | None => false end).
  intros H. apply append_cancel_left in H.
  assert (Hlen : String.length id = String.length id').
  { apply (f_equal String.length) in H. rewrite !append_length in H.
    destruct a, a'; simpl in H; lia. }
  destruct (append_same_length _ _ _ _ Hlen H) as [Hid Hext].
  split; [exact Hid |]. destruct a, a'; simpl in Hext; congruence.
Qed.

(** *** getBans *)

Lemma bans_fold_lookup (results : list BannedUser.t) :
  forall (acc : list (string * BannedUser.t)) (id : string),
    Map_get id
      (fold_left (fun m res => Map_set (BannedUser.user_id res) res m)
         results acc)
    = match find (fun res => (BannedUser.user_id res =? id)%string)
              (rev results) with
      | Some res => Some res
      | None => Map_get id acc
      end.
Proof.
  induction results as [| res results IH]; intros acc id; simpl;
    [reflexivity |].
  rewrite IH.
  assert (Happ : forall l,
            find (fun r => (BannedUser.user_id r =? id)%string) (l ++ [res])
            = match find (fun r => (BannedUser.user_id r =? id)%string) l with
              | Some r => Some r
              | None =>
                  if (BannedUser.user_id res =? id)%string
                  then Some res else None
              end).
  { induction l as [| x l IHl]; simpl; [reflexivity |].
    destruct (BannedUser.user_id x =? id)%string; [reflexivity | exact IHl]. }
  rewrite Happ. clear Happ.
  destruct (find _ (rev results)); [reflexivity |].
  destruct (String.eqb_spec (BannedUser.user_id res) id) as [<- | Hne].
  - apply Map_get_set_same.
  - apply Map_get_set_other. exact Hne.
Qed.

Lemma bans_fold_keys (results : list BannedUser.t) :
  forall acc : list (string * BannedUser.t),
    NoDup (Map_keys acc) ->
    NoDup
      (Map_keys
         (fold_left (fun m res => Map_set (BannedUser.user_id res) res m)
            results acc)).
Proof.
  induction results as [| res results IH]; intros acc Hnd; simpl;
    [exact Hnd |].
  apply IH, Map_keys_set_NoDup, Hnd.
Qed.

(** X23. The collection [getBans] resolves to holds one entry per user id of
    the response: under an id, the last ban of the response for that user,
    and nothing under an id the response does not name. *)
Theorem getBans_collection (guildID : string) (results : list BannedUser.t) :
  match getBans Permissions botHasPermission guildID results with
  | Resolves bans =>
      botHasPermission guildID [Permissions "BAN_MEMBERS"] = true /\
      NoDup (Map_keys bans) /\
      forall id,
        Map_get id bans
        = find (fun res => (BannedUser.user_id res =? id)%string)
            (rev results)
  | Rejects e =>
      e = MISSING_BAN_MEMBERS /\
      botHasPermission guildID [Permissions "BAN_MEMBERS"] = false
  end.
Proof.
  unfold getBans.
  destruct (botHasPermission guildID [Permissions "BAN_MEMBERS"]); simpl;
    [| auto].
  split; [reflexivity |]. split.
  - apply bans_fold_keys. constructor.
  - intros id. unfold bans_collection. rewrite bans_fold_lookup.
    destruct (find _ (rev results)); reflexivity.
Qed.

End OtherHandlersFacts.

(** The sample channel is synced with its category, which holds one
    overwrite more. *)
Lemma isChannelSynced_one_way_witness :
  isChannelSynced sample_cache "c" = Some true.
Proof.
  apply (isChannelSynced_one_way sample_cache "c" "p"
           (Channel.mk GUILD_TEXT (Some "p") (Some sample_overwrites))
           (Channel.mk GUILD_CATEGORY None
              (Some (sample_overwrites
                       ++ [CachedOverwrite.mk "guest" "0" "1024"])))
           sample_overwrites [CachedOverwrite.mk "guest" "0" "1024"]).
  - reflexivity.
  - reflexivity.
  - discriminate.
  - reflexivity.
  - reflexivity.
  - simpl. constructor.
    + simpl. intros [H | []]. discriminate H.
    + constructor; [intros [] | constructor].
  - reflexivity.
Defined.

Lemma emojiURL_injective_witness :
  emojiURL "41771983429993937" None = emojiURL "41771983429993937" (Some false)
  /\ "41771983429993937" = "41771983429993937" /\ false = false.
Proof.
  split; [reflexivity |].
  apply (emojiURL_injective "41771983429993937" "41771983429993937"
           None (Some false)).
  reflexivity.
Defined.
